(** * mailcertificado: attachment preparation and phone validation

    A shallow embedding of [mailcertificado/api.py] (class
    [MailCertificado]) and the properties of its attachment pipeline
    ([build_attachments]), of its mobile-number predicate
    ([valid_mobile]) and of the local checks of [send_agreement]. *)

From Stdlib Require Import ZArith Ascii String List Bool Lia.
From Stdlib Require Import QArith Qround.
From Stdlib Require Import Floats.SpecFloat.
From stdpp Require Import gmap strings list fin_maps.

Local Open Scope string_scope.

(** ** Python values, exceptions and results *)

(** The Python values that flow through the modelled methods, and the
    exceptions they raise.  [MailCertificadoException] is the class of the
    source; its two attributes hold arbitrary Python values (the source
    passes [0], a fault actor, a message or a caught exception). *)
Inductive pyval : Type :=
  | PNone
  | PInt (z : Z)
  | PStr (s : string)
  | PExc (e : exn)
with exn : Type :=
  | MailCertificadoException (code description : pyval)
  | WebFault (faultactor faultstring : string)
  | TypeError
  | KeyError (key : string)
  | IndexError
  | AttributeError
  | LibraryError (origin : string).

(** Outcome of a call: a returned value or a raised exception. *)
Inductive result (A : Type) : Type :=
  | Ok (a : A)
  | Raise (e : exn).
Arguments Ok {A} a.
Arguments Raise {A} e.

#[export] Instance result_ret : MRet result := fun _ a => Ok a.
#[export] Instance result_bind : MBind result := fun _ _ k r =>
  match r with
  | Ok a => k a
  | Raise e => Raise e
  end.

Definition is_raise {A} (r : result A) : bool :=
  match r with Ok _ => false | Raise _ => true end.

(** ** [MailCertificado.exception]

    [hasattr(exception, 'fault')] holds for the [WebFault] of the SOAP
    library only; everything else ends in the last branch. *)
Definition exception (e : pyval) : exn :=
  match e with
  | PStr "unknown" => MailCertificadoException (PInt 0) (PStr "Unknown error")
  | PExc (WebFault faultactor faultstring) =>
      MailCertificadoException (PStr faultactor) (PStr faultstring)
  | _ => MailCertificadoException (PInt 0) e
  end.

(** The error raised for a message built locally. *)
Definition local_error (exception_message : string) : exn :=
  MailCertificadoException (PInt 0) (PStr exception_message).

(** ** Strings: slices and the regular expression of [valid_mobile] *)

(** [s[i:]] for a Python string and any integer [i]. *)
Definition slice_from (i : Z) (s : string) : string :=
  let len := Z.of_nat (String.length s) in
  let start := if (i <? 0)%Z then Z.max (len + i) 0 else Z.min i len in
  substring (Z.to_nat start) (Z.to_nat (len - start)) s.

(** The fragment of [re] syntax the source uses: anchors, character sets
    and a counted repetition of a set. *)
Inductive charset : Type :=
  | CsChars (cs : list ascii)
  | CsRange (lo hi : ascii).

Inductive re_item : Type :=
  | ReBol
  | ReEol
  | ReSet (c : charset)
  | ReRepeat (n : nat) (c : charset).

Definition in_charset (a : ascii) (c : charset) : bool :=
  match c with
  | CsChars cs => existsb (Ascii.eqb a) cs
  | CsRange lo hi =>
      (nat_of_ascii lo <=? nat_of_ascii a)%nat
      && (nat_of_ascii a <=? nat_of_ascii hi)%nat
  end.

(** Consume exactly [n] characters of the set. *)
Fixpoint consume (n : nat) (c : charset) (s : string) : option string :=
  match n with
  | O => Some s
  | S n' =>
      match s with
      | String a s' => if in_charset a c then consume n' c s' else None
      | EmptyString => None
      end
  end.

(** [$] without [re.MULTILINE]: the end of the string, or just before a
    newline that ends it. *)
Definition at_eol (s : string) : bool :=
  match s with
  | EmptyString => true
  | String a EmptyString => Ascii.eqb a "010"%char
  | _ => false
  end.

(** [pattern.match(s)]: the items in sequence from position 0;
    [at_start] tells whether the current position is still 0. *)
Fixpoint match_items (r : list re_item) (at_start : bool) (s : string) : bool :=
  match r with
  | [] => true
  | ReBol :: r' => at_start && match_items r' at_start s
  | ReEol :: r' => at_eol s && match_items r' at_start s
  | ReSet c :: r' =>
      match s with
      | String a s' => in_charset a c && match_items r' false s'
      | EmptyString => false
      end
  | ReRepeat n c :: r' =>
      match consume n c s with
      | Some s' => match_items r' (at_start && Nat.eqb n 0) s'
      | None => false
      end
  end.

Definition re_match (r : list re_item) (s : string) : bool :=
  match_items r true s.

(** [re.compile('^[67][0-9]{8}$')] *)
Definition mobile_re : list re_item :=
  [ReBol; ReSet (CsChars ["6"; "7"]%char);
   ReRepeat 8 (CsRange "0"%char "9"%char); ReEol].

(** ** [MailCertificado.valid_mobile]

    [mobile[-9:]] raises [TypeError] when [mobile] is [None]; the
    [and True or False] turns the match object into a boolean. *)
Definition valid_mobile_str (mobile : string) : bool :=
  re_match mobile_re (slice_from (-9) mobile).

Definition valid_mobile (mobile : option string) : result bool :=
  match mobile with
  | Some m => Ok (valid_mobile_str m)
  | None => Raise TypeError
  end.

(** *** The words of the specification

    The last nine characters of a string (the whole string when it has
    fewer), and a full match of "6 or 7, then exactly eight digits". *)
Definition last_nine (s : string) : string :=
  substring (String.length s - 9) 9 s.

Definition is_digit (a : ascii) : Prop :=
  (nat_of_ascii "0" <= nat_of_ascii a <= nat_of_ascii "9")%nat.

Definition mobile_pattern (t : string) : Prop :=
  exists c rest,
    t = String c rest
    /\ (c = "6"%char \/ c = "7"%char)
    /\ String.length rest = 8%nat
    /\ Forall is_digit (list_ascii_of_string rest).

(** ** Floating point: [int(len(attach_data) * 0.75)]

    Python floats are IEEE 754 binary64 numbers; [n * 0.75] converts the
    integer [n] to the nearest binary64 (ties to even) and multiplies. *)
Definition prec : Z := 53.
Definition emax : Z := 1024.

Definition float_of_int (n : Z) : spec_float :=
  binary_normalize prec emax n 0 false.

(** The literal [0.75], that is 3 * 2^51 * 2^-53. *)
Definition float_0_75 : spec_float :=
  S754_finite false 6755399441055744 (-53).

Definition float_mul (x y : spec_float) : spec_float := SFmul prec emax x y.

(** [int(x)] truncates towards zero.  Python raises on an infinity and on
    a NaN; the product of a length and [0.75] is neither (see
    [float_mul_0_75_exact]), and those cases are given the value [0]. *)
Definition int_of_float (x : spec_float) : Z :=
  match x with
  | S754_finite s m e =>
      let magnitude := Z.shiftl (Z.pos m) e in
      if s then (- magnitude)%Z else magnitude
  | _ => 0%Z
  end.

Definition is_finite (x : spec_float) : bool :=
  match x with
  | S754_zero _ | S754_finite _ _ _ => true
  | _ => false
  end.

Definition py_len (s : string) : Z := Z.of_nat (String.length s).

(** [int(len(attach_data) * 0.75)] *)
Definition estimate_size (attach_data : string) : Z :=
  int_of_float (float_mul (float_of_int (py_len attach_data)) float_0_75).

(** The estimate in the words of the specification:
    floor(0.75 * length), over the rationals. *)
Definition floor_0_75 (n : Z) : Z :=
  Qfloor ((75 # 100) * inject_Z n).

(** ** External collaborators

    [mimetypes.guess_type], the [base64] codec and PyPDF2's
    [PdfFileMerger] are libraries outside the repository.  The codec and
    the merger raise on malformed input; [guess_type] returns the pair
    (type, encoding) with [None] for an unknown type. *)
Definition bytes : Type := list Byte.byte.

Class Externals : Type := {
  guess_type : string -> option string * option string;
  b64decode : string -> result bytes;
  b64encode : bytes -> string;
  pdf_merger : Type;
  PdfFileMerger : pdf_merger;
  merger_append : pdf_merger -> bytes -> result pdf_merger;
  merger_write : pdf_merger -> result bytes
}.

(** ** Attachments *)

(** An input attachment: [dict(name, data)]. *)
Record attachment : Type := { name : string; data : string }.

(** A built attachment: [dict(name, type, size, data)], named after the
    local variables that fill it. *)
Record attach_dict : Type := {
  attach_name : string;
  attach_type : string;
  attach_size : Z;
  attach_data : string
}.

Abbreviation pdf := (Some "application/pdf").

Definition merge_error_message : string :=
  "Merge only allowed if all files are pdfs".

Definition guess_error_message (attach_name : string) : string :=
  "Cannot guess mime type for " ++ attach_name.

Section BuildAttachments.
Context `{Externals}.

(** [[mimetypes.guess_type(x['name'])[0] for x in attachments]] *)
Definition attach_types (attachments : list attachment) : list (option string) :=
  (fun x => fst (guess_type (name x))) <$> attachments.

(** [len(set(attach_types)) == 1 and attach_types[0] == 'application/pdf'] *)
Definition all_pdfs (attach_types : list (option string)) : bool :=
  bool_decide (size (list_to_set attach_types : gset (option string)) = 1%nat)
  && bool_decide (head attach_types = Some (Some "application/pdf")).

(** The loop that decodes every attachment into a temporary file and
    appends it to the merger. *)
Fixpoint append_all (merger : pdf_merger) (attachments : list attachment)
  : result pdf_merger :=
  match attachments with
  | [] => Ok merger
  | attachment :: rest =>
      temp_file ← b64decode (data attachment);
      merger' ← merger_append merger temp_file;
      append_all merger' rest
  end.

(** The body of [if merge and len(attachments) > 1]: the list that
    [attachments] is rebound to. *)
Definition merge_attachments (attachments : list attachment)
  : result (list attachment) :=
  if all_pdfs (attach_types attachments) then
    match attachments with
    | [] => Raise IndexError
    | first :: _ =>
        let merge_name := name first in
        merger ← append_all PdfFileMerger attachments;
        merge_file ← merger_write merger;
        let merge_data := b64encode merge_file in
        Ok [ {| name := merge_name; data := merge_data |} ]
    end
  else Raise (exception (PStr merge_error_message)).

Definition merge_branch (attachments : list attachment) (merge : bool) : bool :=
  merge && (1 <? length attachments)%nat.

(** One iteration of [for attachment in attachments]. *)
Definition build_one (attachment : attachment) : result attach_dict :=
  let attach_name := name attachment in
  let attach_data := data attachment in
  match fst (guess_type attach_name) with
  | Some attach_type =>
      Ok {| attach_name := attach_name;
            attach_type := attach_type;
            attach_size := estimate_size attach_data;
            attach_data := attach_data |}
  | None => Raise (exception (PStr (guess_error_message attach_name)))
  end.

(** The loop; [build] is the list appended to. *)
Fixpoint build_loop (attachments : list attachment) (build : list attach_dict)
  : result (list attach_dict) :=
  match attachments with
  | [] => Ok build
  | attachment :: rest =>
      attach_dict ← build_one attachment;
      build_loop rest (build ++ [attach_dict])%list
  end.

(** The list the second loop runs over. *)
Definition merged_or_original (attachments : list attachment) (merge : bool)
  : result (list attachment) :=
  if merge_branch attachments merge then merge_attachments attachments
  else Ok attachments.

Definition build_attachments (attachments : list attachment) (merge : bool)
  : result (list attach_dict) :=
  attachments' ← merged_or_original attachments merge;
  build_loop attachments' [].

(** *** The words of the specification *)

(** The MIME type inferred from an attachment's file name. *)
Definition inferred_type (a : attachment) : option string :=
  fst (guess_type (name a)).

(** The set of inferred types of a list of attachments. *)
Definition inferred_types (attachments : list attachment) : gset (option string) :=
  list_to_set (inferred_type <$> attachments).

(** Decoding every payload, in input order. *)
Definition decode_all (attachments : list attachment) : result (list bytes) :=
  mapM (fun a => b64decode (data a)) attachments.

(** The merge primitive: the pages of the streams, appended in order to
    an empty merger, written out. *)
Definition mergePdfPages (streams : list bytes) : result bytes :=
  merger ← foldl (fun acc stream => m ← acc; merger_append m stream)
                 (Ok PdfFileMerger) streams;
  merger_write merger.

(** The first attachment, in processing order, whose type cannot be
    inferred. *)
Definition first_unknown (attachments : list attachment) : option attachment :=
  find (fun a => bool_decide (inferred_type a = None)) attachments.
End BuildAttachments.

(** ** The object store: [build_attachments] on shared, mutable objects

    Python lists and dicts are objects reached through references.  The
    store maps a reference to a list of references or to a dict from keys
    to immutable values; the method below is the same code as
    [build_attachments], with every read, allocation and [append] done on
    the store. *)
Definition loc : Type := positive.

Inductive obj : Type :=
  | OList (items : list loc)
  | ODict (fields : gmap string pyval).

(** A computation on the store.  [None] is the absence of an outcome: the
    iteration budget ran out, or a reference named no object. *)
Definition M (A : Type) : Type :=
  gmap loc obj -> option (result A * gmap loc obj).

#[export] Instance M_ret : MRet M := fun _ a h => Some (Ok a, h).
#[export] Instance M_bind : MBind M := fun _ _ k m h =>
  match m h with
  | Some (Ok a, h') => k a h'
  | Some (Raise e, h') => Some (Raise e, h')
  | None => None
  end.

Definition raise {A} (e : exn) : M A := fun h => Some (Raise e, h).
Definition no_outcome {A} : M A := fun _ => None.

Definition alloc (o : obj) : M loc := fun h =>
  let l := fresh (dom h) in Some (Ok l, <[l:=o]> h).

Definition read (l : loc) : M obj := fun h =>
  match h !! l with
  | Some o => Some (Ok o, h)
  | None => None
  end.

Definition write (l : loc) (o : obj) : M unit := fun h =>
  Some (Ok tt, <[l:=o]> h).

(** [x[key]] *)
Definition getitem (x : loc) (key : string) : M pyval :=
  o ← read x;
  match o with
  | ODict fields =>
      match fields !! key with
      | Some v => mret v
      | None => raise (KeyError key)
      end
  | OList _ => raise TypeError
  end.

(** [len(x)] *)
Definition len (x : loc) : M nat :=
  o ← read x;
  match o with
  | OList items => mret (length items)
  | ODict fields => mret (size fields)
  end.

(** [x.append(item)] *)
Definition append (x : loc) (item : loc) : M unit :=
  o ← read x;
  match o with
  | OList items => write x (OList (items ++ [item])%list)
  | ODict _ => raise AttributeError
  end.

(** [for x in iterable: state = body(x, state)], as the list iterator
    runs it: the element at index [i] is fetched from the list as it is
    at that moment.  Iterating a dict yields its keys, on which the first
    statement of every loop body of the method ([x['name']]) raises
    [TypeError]. *)
Fixpoint for_in {St : Type} (fuel : nat) (iterable : loc) (i : nat)
    (body : loc -> St -> M St) (state : St) : M St :=
  match fuel with
  | O => no_outcome
  | S fuel' =>
      o ← read iterable;
      match o with
      | OList items =>
          match items !! i with
          | Some x =>
              state' ← body x state;
              for_in fuel' iterable (S i) body state'
          | None => mret state
          end
      | ODict fields =>
          if bool_decide (size fields = 0%nat) then mret state
          else raise TypeError
      end
  end.

(** A library function that takes a [str]. *)
Definition on_str {A} (v : pyval) (k : string -> M A) : M A :=
  match v with
  | PStr s => k s
  | _ => raise TypeError
  end.

Definition lift {A} (r : result A) : M A := fun h => Some (r, h).

Section BuildAttachmentsStore.
Context `{Externals}.

Definition attach_types_h (fuel : nat) (attachments : loc) : M (list (option string)) :=
  for_in fuel attachments 0
    (fun x acc =>
       x_name ← getitem x "name";
       on_str x_name (fun s => mret (acc ++ [fst (guess_type s)])%list))
    [].

Definition append_all_h (fuel : nat) (attachments : loc) (merger : pdf_merger)
  : M pdf_merger :=
  for_in fuel attachments 0
    (fun attachment merger =>
       attachment_data ← getitem attachment "data";
       on_str attachment_data (fun s =>
         temp_file ← lift (b64decode s);
         lift (merger_append merger temp_file)))
    merger.

(** The merge branch; returns the reference [attachments] is rebound
    to. *)
Definition merge_attachments_h (fuel : nat) (attachments : loc) : M loc :=
  attach_types ← attach_types_h fuel attachments;
  if all_pdfs attach_types then
    o ← read attachments;
    match o with
    | OList (first :: _) =>
        merge_name ← getitem first "name";
        merger ← append_all_h fuel attachments PdfFileMerger;
        merge_file ← lift (merger_write merger);
        let merge_data := b64encode merge_file in
        merged ← alloc (ODict {[ "name" := merge_name;
                                 "data" := PStr merge_data ]});
        alloc (OList [merged])
    | OList [] => raise IndexError
    | ODict _ => raise (KeyError "0")
    end
  else raise (exception (PStr merge_error_message)).

(** The body of the second loop. *)
Definition build_one_h (build : loc) (attachment : loc) : M unit :=
  attach_name ← getitem attachment "name";
  attach_data ← getitem attachment "data";
  on_str attach_name (fun n =>
    match fst (guess_type n) with
    | Some attach_type =>
        on_str attach_data (fun d =>
          attach_dict ← alloc (ODict {[ "name" := attach_name;
                                        "type" := PStr attach_type;
                                        "size" := PInt (estimate_size d);
                                        "data" := attach_data ]});
          append build attach_dict)
    | None => raise (exception (PStr (guess_error_message n)))
    end).

Definition build_attachments_h (fuel : nat) (attachments : loc) (merge : bool)
  : M loc :=
  build ← alloc (OList []);
  attachments' ← (if merge then
                    n ← len attachments;
                    if (1 <? n)%nat then merge_attachments_h fuel attachments
                    else mret attachments
                  else mret attachments);
  for_in fuel attachments' 0
    (fun attachment _ => build_one_h build attachment) tt;;
  mret build.
End BuildAttachmentsStore.

(** *** Reasoning about the store *)

(** Every reference held by a list names an object. *)
Definition closed (h : gmap loc obj) : Prop :=
  forall l items, h !! l = Some (OList items) ->
                  forall x, x ∈ items -> is_Some (h !! x).

(** The number of iterations a [for] over the object makes. *)
Definition iterations (o : obj) : nat :=
  match o with
  | OList items => length items
  | ODict _ => 0
  end.

(** [m] has an outcome on [h] and it satisfies [Q]. *)
Definition wp {A} (m : M A) (h : gmap loc obj)
    (Q : result A -> gmap loc obj -> Prop) : Prop :=
  match m h with
  | Some (r, h') => Q r h'
  | None => False
  end.

(** [m] has an outcome on [h] and leaves [h] as it is. *)
Definition reads_only {A} (m : M A) (h : gmap loc obj) : Prop :=
  exists r, m h = Some (r, h).

(** The state of the store while the second loop runs: the objects of
    the initial store [h0] are as they were, and [build] lists dicts
    allocated since. *)
Definition building (h0 : gmap loc obj) (build : loc) (h : gmap loc obj) : Prop :=
  h0 ⊆ h /\ closed h
  /\ exists items,
       h !! build = Some (OList items)
       /\ Forall (fun x => (x ∉ dom h0)
                           /\ exists fields, h !! x = Some (ODict fields)) items.

(** *** The store and the list of attachments *)

(** The dict at [x] is the attachment [a]. *)
Definition holds_attachment (h : gmap loc obj) (x : loc) (a : attachment) : Prop :=
  exists fields,
    h !! x = Some (ODict fields)
    /\ fields !! "name" = Some (PStr (name a))
    /\ fields !! "data" = Some (PStr (data a)).

(** The list at [l] is the list of attachments [atts]. *)
Definition holds_attachments (h : gmap loc obj) (l : loc)
    (atts : list attachment) : Prop :=
  exists items,
    h !! l = Some (OList items) /\ Forall2 (holds_attachment h) items atts.

(** The dict at [x] is the built record [d]. *)
Definition holds_built (h : gmap loc obj) (x : loc) (d : attach_dict) : Prop :=
  h !! x = Some (ODict {[ "name" := PStr (attach_name d);
                          "type" := PStr (attach_type d);
                          "size" := PInt (attach_size d);
                          "data" := PStr (attach_data d) ]}).

(** A loop body that only reads, as a function of the attachment. *)
Fixpoint fold_attachments {St : Type} (g : attachment -> St -> result St)
    (atts : list attachment) (state : St) : result St :=
  match atts with
  | [] => Ok state
  | a :: rest => state' ← g a state; fold_attachments g rest state'
  end.

(** ** [MailCertificado.send_agreement]

    The remote service is reached through [self.connection] (which opens
    the SOAP client) and through the operation [sendAgreementWS]; both
    are recorded in a log of remote interactions. *)
Record MailCertificado : Type := {
  user : string;
  password : string;
  url : string;
  location : string
}.

Definition init (user password : string) (test : bool) : MailCertificado :=
  if test then
    {| user := user; password := password;
       url := "https://ws.codicert.tk/soap.php?wsdl";
       location := "https://ws.codicert.tk/soap.php" |}
  else
    {| user := user; password := password;
       url := "https://ws.codicert.io/soap.php?wsdl";
       location := "https://ws.codicert.io/soap.php" |}.

Definition credentials (self : MailCertificado) : string * string :=
  (user self, password self).

(** The [data] dict sent to [sendAgreementWS]; the keys added by
    [data.update] are optional. *)
Record agreement_data : Type := {
  userData : string * string;
  to : string;
  subject : string;
  body : string;
  attachments : list attach_dict;
  sms : option (string * string);
  acceptance : option (Z * option string)
}.

Inductive event : Type :=
  | Connect (url : string)
  | Call (operation : string) (data : agreement_data).

(** The remote side: opening the client may raise; the operation raises
    (a fault or a malformed answer), answers nothing, or answers a
    message identifier. *)
Class Remote : Type := {
  Client : string -> string -> result unit;
  sendAgreementWS : agreement_data -> result (option string)
}.

(** A computation that logs its remote interactions. *)
Definition IO (A : Type) : Type := list event -> result A * list event.

#[export] Instance IO_ret : MRet IO := fun _ a log => (Ok a, log).
#[export] Instance IO_bind : MBind IO := fun _ _ k m log =>
  match m log with
  | (Ok a, log') => k a log'
  | (Raise e, log') => (Raise e, log')
  end.

Definition local {A} (r : result A) : IO A := fun log => (r, log).
Definition remote {A} (ev : event) (r : result A) : IO A :=
  fun log => (r, (log ++ [ev])%list).

(** [try: m  except Exception as e: handler(e)] *)
Definition try_except {A} (m : IO A) (handler : exn -> IO A) : IO A :=
  fun log =>
    match m log with
    | (Ok a, log') => (Ok a, log')
    | (Raise e, log') => handler e log'
    end.

(** ['%s' % v] for the values a phone argument takes. *)
Definition format_s (v : option string) : string :=
  match v with
  | Some s => s
  | None => "None"
  end.

(** Truth value of a string or [None]. *)
Definition truthy (v : option string) : bool :=
  match v with
  | Some s => negb (String.eqb s EmptyString)
  | None => false
  end.

Section SendAgreement.
Context `{Externals} `{Remote}.

(** The checks "prior to do anything". *)
Definition previous_checks (accept_method : option Z)
    (accept_phone sms_phone : option string) : result unit :=
  (if bool_decide (accept_method = Some 1%Z) then
     let exception_message := EmptyString in
     let exception_message :=
       if bool_decide (accept_phone = None)
       then "Cannot use sms acceptance method without a phone number"
       else exception_message in
     valid ← valid_mobile accept_phone;
     let exception_message :=
       if negb valid
       then "Mobile phone " ++ format_s accept_phone
            ++ " does not seem to be a valid number"
       else exception_message in
     if negb (String.eqb exception_message EmptyString)
     then Raise (exception (PStr exception_message))
     else Ok tt
   else Ok tt);;
  match sms_phone with
  | Some _ =>
      valid ← valid_mobile sms_phone;
      if negb valid
      then Raise (exception (PStr ("Mobile phone " ++ format_s sms_phone
                                   ++ " do not seem to be a valid number")))
      else Ok tt
  | None => Ok tt
  end.

Definition send_agreement (self : MailCertificado)
    (to subject body : string) (attachments : list attachment)
    (accept_method : option Z) (accept_phone sms_phone sms_body : option string)
  : IO string :=
  local (previous_checks accept_method accept_phone sms_phone);;
  remote (Connect (url self)) (Client (url self) (location self));;
  built ← local (build_attachments attachments true);
  let data :=
    {| userData := credentials self; to := to; subject := subject;
       body := body; attachments := built;
       sms := if truthy sms_phone && truthy sms_body
              then Some (format_s sms_phone, format_s sms_body) else None;
       acceptance := if bool_decide (accept_method = Some 1%Z)
                     then Some (1%Z, accept_phone) else None |} in
  try_except
    (res ← remote (Call "sendAgreementWS" data) (sendAgreementWS data);
     match res with
     | None => local (Raise (exception (PStr "unkown")))
     | Some messageId => mret messageId
     end)
    (fun e => local (Raise (exception (PExc e)))).
End SendAgreement.

(** ** Stand-ins for the external libraries

    A small table of extensions, a transparent codec and a merger that
    concatenates, to run the model on concrete inputs. *)
Definition sample_guess_type (file_name : string) : option string * option string :=
  if String.eqb (slice_from (-4) file_name) ".pdf" then (Some "application/pdf", None)
  else if String.eqb (slice_from (-4) file_name) ".txt" then (Some "text/plain", None)
  else (None, None).

Definition sample_externals : Externals := {|
  guess_type := sample_guess_type;
  b64decode := fun s => Ok (list_byte_of_string s);
  b64encode := string_of_list_byte;
  pdf_merger := list bytes;
  PdfFileMerger := [];
  merger_append := fun merger stream =>
    match stream with
    | [] => Raise (LibraryError "PdfReadError")
    | _ => Ok (merger ++ [stream])%list
    end;
  merger_write := fun merger => Ok (concat merger)
|}.

Definition sample_remote : Remote := {|
  Client := fun _ _ => Ok tt;
  sendAgreementWS := fun _ => Ok (Some "message-1")
|}.

(** Sample attachments and a sample store; in the store the list at
    reference 1 holds the dict at reference 2 twice. *)
Definition report_pdf : attachment := {| name := "report.pdf"; data := "JVBERi0xLjQ=" |}.
Definition annex_pdf : attachment := {| name := "annex.pdf"; data := "JVBERi0xLjc=" |}.
Definition notes_txt : attachment := {| name := "notes.txt"; data := "aGVsbG8=" |}.
Definition blob_unknownext : attachment := {| name := "x.unknownext"; data := "AAAA" |}.
Definition readme_bare : attachment := {| name := "README"; data := "AAAA" |}.

Definition sample_store : gmap loc obj :=
  {[ 1%positive := OList [2; 2; 3]%positive;
     2%positive := ODict {[ "name" := PStr "report.pdf"; "data" := PStr "JVBERi0xLjQ=" ]};
     3%positive := ODict {[ "name" := PStr "annex.pdf"; "data" := PStr "JVBERi0xLjc=" ]} ]}.

(** ** The other methods of [MailCertificado]

    The remaining methods talk to the SOAP service through a client
    opened by [self.connection].  A request is the [data] dict of the
    method; an answer is given as the values the method reads from it
    ([res.credit], [res.result[0].messageId[0]], ...), [None] when the
    service answered nothing, and a raised exception for a fault or for an
    answer without those values. *)
Module Gateway.

(** The values of a request dict. *)
Inductive field : Type :=
  | FNone
  | FInt (z : Z)
  | FStr (s : string)
  | FCredentials (user pass : string)
  | FAttachments (built : list attach_dict).

(** A remote interaction: the client opened, or an operation called with
    its request. *)
Inductive call : Type :=
  | Opened (url location : string)
  | Requested (operation : string) (data : gmap string field).

(** What [check_status] reads from the answer, and the dict it returns. *)
Record status_answer : Type := {
  messageId : string;
  transactionId : string;
  status : string;
  date : string
}.

Record status_dict : Type := {
  message_id : string;
  transaction_id : string;
  status_of : string;
  date_of : string
}.

(** A stored message or certificate: [dict(name, data)]. *)
Record message : Type := { message_name : string; message_data : string }.

Class Service : Type := {
  Client : string -> string -> result unit;
  credit : Type;
  getUserCreditWS : gmap string field -> result (option credit);
  getMsgStatusWS : gmap string field -> result (option status_answer);
  sendAgreementWS : gmap string field -> result (option string);
  sendMailWS : gmap string field -> result (option (list string));
  getMsgWS : gmap string field -> result (option message);
  getMsgCertificateWS : gmap string field -> result (option message);
  sendSmsWS : gmap string field -> result (option string)
}.

(** The [phonenumbers] library: [parse(number, region)] raises on text
    that is no phone number. *)
Class PhoneNumbers : Type := {
  phone_number : Type;
  parse : string -> string -> result phone_number;
  is_valid_number : phone_number -> bool
}.

(** A computation that logs its remote interactions. *)
Definition Svc (A : Type) : Type := list call -> result A * list call.

#[global] Instance Svc_ret : MRet Svc := fun _ a log => (Ok a, log).
#[global] Instance Svc_bind : MBind Svc := fun _ _ k m log =>
  match m log with
  | (Ok a, log') => k a log'
  | (Raise e, log') => (Raise e, log')
  end.

Definition local {A} (r : result A) : Svc A := fun log => (r, log).
Definition remote {A} (c : call) (r : result A) : Svc A :=
  fun log => (r, (log ++ [c])%list).

(** [try: m  except Exception as e: self.exception(e)] *)
Definition try_except {A} (m : Svc A) : Svc A :=
  fun log =>
    match m log with
    | (Ok a, log') => (Ok a, log')
    | (Raise e, log') => (Raise (exception (PExc e)), log')
    end.

(** [sms_phone.replace(' ', '')] *)
Fixpoint remove_spaces (s : string) : string :=
  match s with
  | EmptyString => EmptyString
  | String a rest =>
      if Ascii.eqb a " "%char then remove_spaces rest
      else String a (remove_spaces rest)
  end.

(** [','.join(ids)] *)
Definition join_commas (ids : list string) : string := String.concat "," ids.

Section Methods.
Context `{Externals} `{Service} `{PhoneNumbers}.

(** The property [self.connection]. *)
Definition connection (self : MailCertificado) : Svc unit :=
  remote (Opened (url self) (location self)) (Client (url self) (location self)).

Definition userData (self : MailCertificado) : field :=
  FCredentials (user self) (password self).

(** An operation called inside [try]. *)
Definition service {A} (operation : string) (data : gmap string field)
    (answer : result A) : Svc A :=
  remote (Requested operation data) answer.

Definition check_credit (self : MailCertificado) : Svc credit :=
  connection self;;
  let data : gmap string field := {[ "userData" := userData self ]} in
  try_except
    (res ← service "getUserCreditWS" data (getUserCreditWS data);
     match res with
     | Some answer => mret answer
     | None => local (Raise AttributeError)
     end).

Definition check_status (self : MailCertificado) (message_id : string)
  : Svc status_dict :=
  connection self;;
  let data : gmap string field :=
    {[ "userData" := userData self; "messageId" := FStr message_id ]} in
  try_except
    (res ← service "getMsgStatusWS" data (getMsgStatusWS data);
     match res with
     | Some answer =>
         mret {| message_id := messageId answer;
                 transaction_id := transactionId answer;
                 status_of := status answer;
                 date_of := date answer |}
     | None => local (Raise AttributeError)
     end).

Definition send_agreement_sms (self : MailCertificado)
    (to : option string) (subject body : string)
    (attachments : list attachment) : Svc string :=
  let to := if truthy to then Some (slice_from (-9) (format_s to)) else to in
  local (match to with
         | Some _ =>
             valid ← valid_mobile to;
             if negb valid
             then Raise (exception (PStr ("Mobile phone " ++ format_s to
                                          ++ " do not seem to be a valid number")))
             else Ok tt
         | None => Ok tt
         end);;
  connection self;;
  built ← local (build_attachments attachments true);
  let data : gmap string field :=
    {[ "userData" := userData self;
       "agreementSms" := FInt 1;
       "forwardOnError" := FInt 1;
       "to" := match to with Some t => FStr t | None => FNone end;
       "subject" := FStr subject;
       "body" := FStr body;
       "attachments" := FAttachments built ]} in
  try_except
    (res ← service "sendAgreementWS" data (sendAgreementWS data);
     match res with
     | Some messageId => mret messageId
     | None => local (Raise (exception (PStr "unkown")))
     end).

(** The condition under which [send_mail] adds the SMS keys, on the
    number already passed through [str] and stripped of spaces. *)
Definition sms_wanted (sms_phone : string) (sms_body : option string)
  : result bool :=
  if negb (String.eqb sms_phone EmptyString) && truthy sms_body
     && (8 <? String.length sms_phone)%nat
  then
    number ← parse sms_phone "ES";
    Ok (is_valid_number number && valid_mobile_str sms_phone)
  else Ok false.

Definition send_mail (self : MailCertificado)
    (to subject body : string) (attachments : list attachment)
    (sms_phone sms_body : option string) : Svc string :=
  connection self;;
  built ← local (build_attachments attachments true);
  let data : gmap string field :=
    {[ "userData" := userData self;
       "to" := FStr to;
       "subject" := FStr subject;
       "body" := FStr body;
       "attachments" := FAttachments built ]} in
  let sms_phone := format_s sms_phone in
  let sms_phone := remove_spaces sms_phone in
  wanted ← local (sms_wanted sms_phone sms_body);
  let data :=
    if wanted : bool
    then <["smsPhone" := FStr sms_phone]>
           (<["smsBody" := FStr (format_s sms_body)]> data)
    else data in
  try_except
    (res ← service "sendMailWS" data (sendMailWS data);
     match res with
     | Some ids => mret (join_commas ids)
     | None => local (Raise (exception (PStr "unknown")))
     end).

Definition get_message (self : MailCertificado) (message_id : string)
  : Svc message :=
  connection self;;
  let data : gmap string field :=
    {[ "userData" := userData self; "messageId" := FStr message_id ]} in
  try_except
    (res ← service "getMsgWS" data (getMsgWS data);
     match res with
     | Some answer =>
         mret {| message_name := message_name answer;
                 message_data := message_data answer |}
     | None => local (Raise (exception (PStr "unkown")))
     end).

(** [cert_type] defaults to ['general']. *)
Definition get_message_certificate (self : MailCertificado)
    (message_id : string) (cert_type : string) : Svc message :=
  connection self;;
  let data : gmap string field :=
    {[ "userData" := userData self;
       "messageId" := FStr message_id;
       "type" := FStr cert_type ]} in
  try_except
    (res ← service "getMsgCertificateWS" data (getMsgCertificateWS data);
     match res with
     | Some answer =>
         mret {| message_name := message_name answer;
                 message_data := message_data answer |}
     | None => local (Raise (exception (PStr "unkown")))
     end).

Definition send_registered_sms (self : MailCertificado)
    (sms_phone sms_body : string) : Svc string :=
  connection self;;
  let data : gmap string field :=
    {[ "userData" := userData self;
       "smsPhone" := FStr sms_phone;
       "smsBody" := FStr sms_body ]} in
  try_except
    (res ← service "sendSmsWS" data (sendSmsWS data);
     match res with
     | Some messageId => mret messageId
     | None => local (Raise (exception (PStr "unknown")))
     end).
End Methods.


(** The translation of what a guarded operation raised or answered:
    [nothing] is what the method raises inside [try] on [None]. *)
Definition translated {A B} (answer : result (option A)) (f : A -> B)
    (nothing : exn) : result B :=
  match answer with
  | Ok (Some a) => Ok (f a)
  | Ok None => Raise (exception (PExc nothing))
  | Raise e => Raise (exception (PExc e))
  end.

(** The operations a log requested, in order. *)
Definition requests (log : list call) : list (string * gmap string field) :=
  omap (fun c => match c with
                 | Requested operation data => Some (operation, data)
                 | Opened _ _ => None
                 end) log.

(** Every request of the log carries the credentials of [self]. *)
Definition carries_credentials (self : MailCertificado) (log : list call) : Prop :=
  forall operation data,
    (operation, data) ∈ requests log ->
    data !! "userData" = Some (FCredentials (user self) (password self)).

(** Stand-ins: a service that answers, and a parser that accepts digits
    with an optional leading [+]. *)
Definition sample_service : Service := {|
  Client := fun _ _ => Ok tt;
  credit := Z;
  getUserCreditWS := fun _ => Ok (Some 42%Z);
  getMsgStatusWS := fun _ =>
    Ok (Some {| messageId := "m-1"; transactionId := "t-1";
                status := "DELIVERED"; date := "2020-01-01" |});
  sendAgreementWS := fun _ => Ok (Some "m-1");
  sendMailWS := fun _ => Ok (Some ["m-1"; "m-2"]);
  getMsgWS := fun _ => Ok None;
  getMsgCertificateWS := fun _ => Raise (WebFault "Client" "No such message");
  sendSmsWS := fun _ => Ok None
|}.

(** A service that answers nothing, one that faults, one that cannot be
    reached. *)
Definition silent_service : Service := {|
  Client := fun _ _ => Ok tt;
  credit := Z;
  getUserCreditWS := fun _ => Ok None;
  getMsgStatusWS := fun _ => Ok None;
  sendAgreementWS := fun _ => Ok None;
  sendMailWS := fun _ => Ok None;
  getMsgWS := fun _ => Ok None;
  getMsgCertificateWS := fun _ => Ok None;
  sendSmsWS := fun _ => Ok None
|}.


Definition offline_service : Service := {|
  Client := fun _ _ => Raise (LibraryError "URLError");
  credit := Z;
  getUserCreditWS := fun _ => Ok None;
  getMsgStatusWS := fun _ => Ok None;
  sendAgreementWS := fun _ => Ok None;
  sendMailWS := fun _ => Ok None;
  getMsgWS := fun _ => Ok None;
  getMsgCertificateWS := fun _ => Ok None;
  sendSmsWS := fun _ => Ok None
|}.

Definition sample_self : MailCertificado := init "user" "secret" true.

Definition sample_phone_numbers : PhoneNumbers := {|
  phone_number := string;
  parse := fun number _ =>
    match number with
    | String a rest =>
        if (Ascii.eqb a "+"%char || in_charset a (CsRange "0" "9"))
           && forallb (fun c => in_charset c (CsRange "0" "9"))
                      (list_ascii_of_string rest)
        then Ok number
        else Raise (LibraryError "NumberParseException")
    | EmptyString => Raise (LibraryError "NumberParseException")
    end;
  is_valid_number := fun number => (9 <=? String.length number)%nat
|}.
End Gateway.

(** Sample requests. *)
Definition sample_agreement_data : agreement_data :=
  {| userData := ("user", "secret"); to := "to@example.org";
     subject := "subject"; body := "body";
     attachments :=
       [ {| attach_name := "report.pdf"; attach_type := "application/pdf";
            attach_size := 9; attach_data := "JVBERi0xLjQ=" |} ];
     sms := Some ("+34712345678", "text");
     acceptance := Some (1%Z, Some "612345678") |}.

Definition sample_built : list attach_dict :=
  [ {| attach_name := "report.pdf"; attach_type := "application/pdf";
       attach_size := 9; attach_data := "JVBERi0xLjQ=" |} ].

Definition sample_sms_agreement_request : gmap string Gateway.field :=
  {[ "userData" := Gateway.FCredentials "user" "secret";
     "agreementSms" := Gateway.FInt 1;
     "forwardOnError" := Gateway.FInt 1;
     "to" := Gateway.FStr "612345678";
     "subject" := Gateway.FStr "subject";
     "body" := Gateway.FStr "body";
     "attachments" := Gateway.FAttachments sample_built ]}.

Definition sample_mail_request : gmap string Gateway.field :=
  <["smsPhone" := Gateway.FStr "+34612345678"]>
    (<["smsBody" := Gateway.FStr "text"]>
       {[ "userData" := Gateway.FCredentials "user" "secret";
          "to" := Gateway.FStr "to@example.org";
          "subject" := Gateway.FStr "subject";
          "body" := Gateway.FStr "body";
          "attachments" := Gateway.FAttachments sample_built ]}).

(** * Properties *)

(** ** Phone validation *)

Lemma substring_to_end (s : string) : forall k n m : nat,
  (String.length s <= k + n)%nat -> (String.length s <= k + m)%nat ->
  substring k n s = substring k m s.
Proof.
  induction s as [|a s IH]; intros k n m Hn Hm.
  - by destruct k, n, m.
  - destruct k as [|k]; simpl in *.
    + destruct n as [|n], m as [|m]; try lia.
      f_equal. apply IH; simpl; lia.
    + apply IH; lia.
Qed.

Lemma slice_from_last_nine (s : string) : slice_from (-9) s = last_nine s.
Proof.
  unfold slice_from, last_nine. simpl.
  destruct (Z.max_spec (Z.of_nat (String.length s) + -9) 0) as [[Hle ->]|[Hle ->]].
  - simpl. replace (String.length s - 9)%nat with 0%nat by lia.
    apply substring_to_end; lia.
  - replace (Z.to_nat (Z.of_nat (String.length s) + -9)) with (String.length s - 9)%nat by lia.
    apply substring_to_end; lia.
Qed.

Lemma length_last_nine (s : string) :
  String.length (last_nine s) = Nat.min 9 (String.length s).
Proof.
  unfold last_nine.
  assert (Hgen : forall (t : string) (k n : nat),
             String.length (substring k n t) = Nat.min n (String.length t - k)).
  { induction t as [|a t IH]; intros k n.
    - destruct k, n; simpl; lia.
    - destruct k as [|k]; simpl.
      + destruct n as [|n]; simpl; [done|]. rewrite IH. lia.
      + apply IH. }
  rewrite Hgen. lia.
Qed.

Lemma append_cons (a : ascii) (p s : string) :
  String a p ++ s = String a (p ++ s).
Proof. reflexivity. Qed.

Lemma length_append (p s : string) :
  String.length (p ++ s) = (String.length p + String.length s)%nat.
Proof. induction p as [|a p IH]; [reflexivity | simpl; congruence]. Qed.

Lemma append_empty_r (p : string) : p ++ EmptyString = p.
Proof.
  induction p as [|a p IH]; [reflexivity|]. by rewrite append_cons, IH.
Qed.

(** What [consume] accepts: a prefix of [n] characters of the set. *)
Lemma consume_Some (c : charset) (n : nat) : forall s s' : string,
  consume n c s = Some s' <->
  exists p, s = p ++ s' /\ String.length p = n
            /\ Forall (fun a => in_charset a c = true) (list_ascii_of_string p).
Proof.
  induction n as [|n IH]; intros s s'; simpl.
  - split.
    + intros [= ->]. exists EmptyString. by repeat split.
    + intros ([|a p] & -> & Hlen & _); [done | discriminate].
  - destruct s as [|a s].
    + split; [done|]. intros ([|b p] & Heq & Hlen & _); discriminate.
    + destruct (in_charset a c) eqn:Ha.
      * rewrite IH. split.
        -- intros (p & -> & Hlen & Hall). exists (String a p).
           repeat split; simpl; [by rewrite Hlen | by constructor].
        -- intros ([|b p] & Heq & Hlen & Hall); [discriminate|].
           simpl in Heq, Hlen, Hall. injection Heq as -> ->.
           inversion Hall; subst. exists p. repeat split; [lia | done].
      * split; [done|]. intros ([|b p] & Heq & Hlen & Hall); [discriminate|].
        simpl in Heq, Hall. injection Heq as -> ->.
        inversion Hall; subst. congruence.
Qed.

Lemma in_digits (a : ascii) :
  in_charset a (CsRange "0" "9") = true <-> is_digit a.
Proof.
  unfold in_charset, is_digit.
  by rewrite andb_true_iff, !Nat.leb_le.
Qed.

Lemma in_six_seven (a : ascii) :
  in_charset a (CsChars ["6"; "7"]%char) = true <-> a = "6"%char \/ a = "7"%char.
Proof.
  simpl. rewrite !orb_true_iff, !Ascii.eqb_eq.
  split; [intros [?|[?|?]]; [by left | by right | done] | intros [?|?]; auto].
Qed.

(** The compiled pattern, item by item. *)
Lemma re_match_mobile_re_unfold (t : string) :
  re_match mobile_re t =
  match t with
  | String c rest =>
      in_charset c (CsChars ["6"; "7"]%char)
      && match consume 8 (CsRange "0" "9") rest with
         | Some tail => at_eol tail && true
         | None => false
         end
  | EmptyString => false
  end.
Proof. by destruct t. Qed.

(** The compiled pattern on a string of at most nine characters: the
    trailing-newline case of [$] cannot arise. *)
Lemma re_match_mobile_re (t : string) :
  (String.length t <= 9)%nat ->
  re_match mobile_re t = true <-> mobile_pattern t.
Proof.
  intros Hlen. rewrite re_match_mobile_re_unfold. unfold mobile_pattern.
  destruct t as [|c rest]; [split; [done | by intros (? & ? & ? & _)]|].
  rewrite andb_true_iff, in_six_seven. split.
  - intros [Hc Hrest].
    destruct (consume 8 (CsRange "0" "9") rest) as [tail|] eqn:Hcons; [|done].
    apply consume_Some in Hcons as (p & -> & Hp & Hall).
    simpl in Hlen. rewrite length_append in Hlen.
    destruct tail as [|b tail]; [|simpl in Hlen; lia].
    rewrite append_empty_r. exists c, p. repeat split; [done..|].
    eapply Forall_impl; [exact Hall|]. intros a. apply in_digits.
  - intros (c' & rest' & [= <- <-] & Hc & Hp & Hall). split; [done|].
    assert (consume 8 (CsRange "0" "9") rest = Some EmptyString) as ->; [|done].
    apply consume_Some. exists rest. rewrite append_empty_r. repeat split; [done|].
    eapply Forall_impl; [exact Hall|]. intros a. apply in_digits.
Qed.

Lemma mobile_pattern_length (t : string) :
  mobile_pattern t -> String.length t = 9%nat.
Proof. intros (c & rest & -> & _ & Hlen & _). simpl. by rewrite Hlen. Qed.

(** C4: [valid_mobile] answers true exactly when the last nine characters
    of its argument fully match "6 or 7 followed by exactly eight digits";
    a string of fewer than nine characters, or one whose suffix does not
    match, is answered false; "612345678" is valid and "512345678" is
    not. *)
Theorem valid_mobile_iff_suffix_matches :
  (forall s : string,
      (valid_mobile (Some s) = Ok true <-> mobile_pattern (last_nine s))
      /\ ((String.length s < 9)%nat -> valid_mobile (Some s) = Ok false)
      /\ (~ mobile_pattern (last_nine s) -> valid_mobile (Some s) = Ok false))
  /\ valid_mobile (Some "612345678") = Ok true
  /\ valid_mobile (Some "512345678") = Ok false.
Proof.
  split; [|by split].
  intros s. unfold valid_mobile, valid_mobile_str.
  rewrite slice_from_last_nine.
  pose proof (length_last_nine s) as Hlen.
  assert (Hiff : re_match mobile_re (last_nine s) = true
                 <-> mobile_pattern (last_nine s))
    by (apply re_match_mobile_re; lia).
  split; [|split].
  - rewrite <- Hiff. split; [by intros [= ->] | by intros ->].
  - intros Hshort.
    destruct (re_match mobile_re (last_nine s)); [|done].
    destruct Hiff as [Hiff _]. apply mobile_pattern_length in Hiff; [lia | done].
  - intros Hno.
    destruct (re_match mobile_re (last_nine s)); [|done].
    destruct Hno. by apply Hiff.
Qed.

(** ** The size estimate: binary64 arithmetic *)

Section SizeEstimate.
Local Open Scope Z_scope.

(** [iter_pos], the iteration of the rounding functions, as an iteration
    over [nat]. *)
Lemma iter_pos_nat {A : Type} (f : A -> A) (n : positive) : forall x : A,
  SpecFloat.iter_pos f n x = Nat.iter (Pos.to_nat n) f x.
Proof.
  induction n as [n IH|n IH|]; intros x.
  - simpl SpecFloat.iter_pos. rewrite !IH, Pos2Nat.inj_xI.
    replace (S (2 * Pos.to_nat n)) with (Pos.to_nat n + (Pos.to_nat n + 1))%nat by lia.
    by rewrite !Nat.iter_add.
  - simpl SpecFloat.iter_pos. rewrite !IH, Pos2Nat.inj_xO.
    replace (2 * Pos.to_nat n)%nat with (Pos.to_nat n + Pos.to_nat n)%nat by lia.
    by rewrite Nat.iter_add.
  - done.
Qed.

(** Shifting out zero bits loses nothing. *)
Lemma iter_shr_1_exact (j : nat) : forall q : positive,
  Nat.iter j shr_1 {| shr_m := Z.pos q * 2 ^ Z.of_nat j; shr_r := false; shr_s := false |}
  = {| shr_m := Z.pos q; shr_r := false; shr_s := false |}.
Proof.
  induction j as [|j IH]; intros q.
  - simpl. by rewrite Z.mul_1_r.
  - rewrite Nat.iter_succ.
    replace (Z.pos q * 2 ^ Z.of_nat (S j)) with (Z.pos q~0 * 2 ^ Z.of_nat j).
    + by rewrite IH.
    + rewrite Nat2Z.inj_succ, Z.pow_succ_r by lia. lia.
Qed.

Lemma shr_exact (q : positive) (k e : Z) :
  0 <= k ->
  shr {| shr_m := Z.pos q * 2 ^ k; shr_r := false; shr_s := false |} e k
  = ({| shr_m := Z.pos q; shr_r := false; shr_s := false |}, e + k).
Proof.
  intros Hk. unfold shr. destruct k as [|kp|kp]; [|clear Hk|lia].
  - by rewrite Z.mul_1_r, Z.add_0_r.
  - rewrite iter_pos_nat. f_equal.
    rewrite <- (positive_nat_Z kp) at 1. apply iter_shr_1_exact.
Qed.

Lemma Zdigits2_log2 (n : Z) : 0 < n -> Zdigits2 n = Z.log2 n + 1.
Proof.
  destruct n as [|p|p]; [lia| |lia]. intros _. simpl.
  assert (Hsize : forall p, digits2_pos p = Pos.size p)
    by (intros p'; induction p' as [p' IH|p' IH|]; simpl; congruence).
  destruct p as [p|p|]; simpl; rewrite ?Hsize; lia.
Qed.

(** Rounding a product whose low [k] bits are zero and whose other bits
    fill the mantissa is exact. *)
Lemma binary_round_aux_exact (s : bool) (m : Z) (q : positive) (k e : Z) :
  m = Z.pos q * 2 ^ k -> 0 <= k ->
  Z.log2 (Z.pos q) = 52 ->
  -1074 <= e + k <= 971 ->
  binary_round_aux prec emax s m e loc_Exact = S754_finite s q (e + k).
Proof.
  intros -> Hk Hq He.
  assert (Hdig : Zdigits2 (Z.pos q * 2 ^ k) = 53 + k).
  { rewrite Zdigits2_log2 by (apply Z.mul_pos_pos; [lia | by apply Z.pow_pos_nonneg]).
    rewrite Z.log2_mul_pow2 by lia. lia. }
  unfold binary_round_aux, shr_fexp.
  rewrite Hdig. simpl shr_record_of_loc.
  replace (fexp prec emax (53 + k + e) - e) with k
    by (unfold fexp, emin, prec, emax; lia).
  rewrite shr_exact by done.
  cbn [shr_m loc_of_shr_record round_nearest_even shr_record_of_loc].
  rewrite (Zdigits2_log2 (Z.pos q)), Hq by lia.
  replace (fexp prec emax (52 + 1 + (e + k)) - (e + k)) with 0
    by (unfold fexp, emin, prec, emax; lia).
  cbn [shr shr_m].
  destruct (Z.leb_spec (e + k) (emax - prec)) as [_|Hgt]; [done|].
  unfold emax, prec in Hgt. lia.
Qed.

(** The conversion of a positive integer below 2^53 is exact: the
    mantissa is the integer shifted to 53 bits. *)
Lemma float_of_int_exact (p : positive) :
  Z.pos p < 2 ^ 53 ->
  exists mz : positive,
    float_of_int (Z.pos p) = S754_finite false mz (Z.log2 (Z.pos p) - 52)
    /\ Z.pos mz = Z.pos p * 2 ^ (52 - Z.log2 (Z.pos p)).
Proof.
  intros Hp.
  assert (Hlog : 0 <= Z.log2 (Z.pos p) < 53).
  { split; [apply Z.log2_nonneg | by apply Z.log2_lt_pow2]. }
  set (mz := Z.to_pos (Z.pos p * 2 ^ (52 - Z.log2 (Z.pos p)))).
  assert (Hmz : Z.pos mz = Z.pos p * 2 ^ (52 - Z.log2 (Z.pos p))).
  { unfold mz. rewrite Z2Pos.id; [done|].
    apply Z.mul_pos_pos; [lia | apply Z.pow_pos_nonneg; lia]. }
  exists mz. split; [|done].
  unfold float_of_int, binary_normalize, binary_round.
  pose proof (Zdigits2_log2 (Z.pos p) eq_refl) as Hdig. simpl Zdigits2 in Hdig.
  rewrite Z.add_0_r, Hdig.
  replace (fexp prec emax (Z.log2 (Z.pos p) + 1)) with (Z.log2 (Z.pos p) - 52)
    by (unfold fexp, emin, prec, emax; lia).
  unfold shl_align. rewrite Z.sub_0_r.
  destruct (Z.log2 (Z.pos p) - 52) as [|d|d] eqn:Hd; [|lia|].
  - assert (Z.log2 (Z.pos p) = 52) as Hlog52 by lia.
    rewrite (binary_round_aux_exact false (Z.pos p) p 0 0); [|lia|lia|done|lia].
    simpl. do 2 f_equal. rewrite Hlog52 in Hmz. simpl in Hmz. lia.
  - assert (Hiter : Z.pos (Pos.iter xO p d) = Z.pos p * 2 ^ Z.pos d).
    { clear. induction d as [|d IH] using Pos.peano_ind.
      - simpl. lia.
      - rewrite Pos.iter_succ, Pos2Z.inj_succ, Z.pow_succ_r by lia.
        rewrite Pos2Z.inj_xO, IH. lia. }
    assert (Hsame : Pos.iter xO p d = mz).
    { apply Pos2Z.inj. rewrite Hiter, Hmz. do 2 f_equal. lia. }
    rewrite Hsame.
    rewrite (binary_round_aux_exact false (Z.pos mz) mz 0 (Z.neg d));
      [by rewrite Z.add_0_r | lia | lia | | lia].
    rewrite Hmz, Z.log2_mul_pow2 by lia. lia.
Qed.

(** For a length whose triple is below 2^53 the
    binary64 product by 0.75 is exact, and truncating it gives the floor
    of three quarters of the length. *)
Lemma float_mul_0_75_exact (n : Z) :
  0 <= n -> 3 * n < 2 ^ 53 ->
  is_finite (float_mul (float_of_int n) float_0_75) = true
  /\ int_of_float (float_mul (float_of_int n) float_0_75) = 3 * n / 4.
Proof.
  intros Hn Hbound. destruct n as [|p|p]; [done| |lia].
  destruct (float_of_int_exact p) as (mz & -> & Hmz); [lia|].
  set (L := Z.log2 (Z.pos p)) in *.
  set (L3 := Z.log2 (3 * Z.pos p)).
  assert (HL : 0 <= L) by apply Z.log2_nonneg.
  assert (HLL3 : L <= L3) by (apply Z.log2_le_mono; lia).
  assert (HL3 : L3 < 53) by (apply Z.log2_lt_pow2; lia).
  set (q := Z.to_pos (3 * Z.pos p * 2 ^ (52 - L3))).
  assert (Hq : Z.pos q = 3 * Z.pos p * 2 ^ (52 - L3)).
  { unfold q. rewrite Z2Pos.id; [done|].
    apply Z.mul_pos_pos; [lia | apply Z.pow_pos_nonneg; lia]. }
  unfold float_mul, float_0_75, SFmul. cbn [xorb].
  rewrite (binary_round_aux_exact false _ q (L3 - L + 51) (L - 52 + -53)).
  - split; [done|]. unfold int_of_float.
    replace (L - 52 + -53 + (L3 - L + 51)) with (- (54 - L3)) by lia.
    rewrite Z.shiftl_div_pow2, Z.opp_involutive, Hq by lia.
    replace (2 ^ (54 - L3)) with (4 * 2 ^ (52 - L3)).
    + rewrite Z.div_mul_cancel_r; [done | lia |].
      apply Z.pow_nonzero; lia.
    + replace (54 - L3) with (2 + (52 - L3)) by lia.
      rewrite Z.pow_add_r by lia. done.
  - rewrite Pos2Z.inj_mul, Hmz, Hq.
    replace (Z.pos 6755399441055744) with (3 * 2 ^ 51) by done.
    replace (Z.pos p * 2 ^ (52 - L) * (3 * 2 ^ 51))
      with (3 * Z.pos p * (2 ^ (52 - L) * 2 ^ 51)) by lia.
    rewrite <- !Z.mul_assoc, <- !Z.pow_add_r by lia.
    do 3 f_equal. lia.
  - lia.
  - rewrite Hq, Z.log2_mul_pow2 by lia. fold L3. lia.
  - lia.
Qed.

Lemma floor_0_75_div (n : Z) : floor_0_75 n = 3 * n / 4.
Proof.
  unfold floor_0_75, Qfloor, inject_Z, Qmult. simpl Qnum. simpl Qden.
  change (Z.pos (100 * 1)) with (25 * 4).
  replace (75 * n) with (25 * (3 * n)) by lia.
  rewrite Z.div_mul_cancel_l; lia.
Qed.

Lemma estimate_size_floor (attach_data : string) :
  3 * py_len attach_data < 2 ^ 53 ->
  estimate_size attach_data = floor_0_75 (py_len attach_data).
Proof.
  intros Hbound. unfold estimate_size. rewrite floor_0_75_div.
  apply float_mul_0_75_exact; [unfold py_len; lia | done].
Qed.

End SizeEstimate.

(** ** Building attachments *)

Lemma exception_merge_error :
  exception (PStr merge_error_message) = local_error merge_error_message.
Proof. reflexivity. Qed.

Lemma exception_guess_error (attach_name : string) :
  exception (PStr (guess_error_message attach_name))
  = local_error (guess_error_message attach_name).
Proof. reflexivity. Qed.

Section BuildAttachmentsProperties.
Context `{Externals}.

Lemma attach_types_inferred (atts : list attachment) :
  attach_types atts = inferred_type <$> atts.
Proof. reflexivity. Qed.

(** The test of the merge branch holds exactly for a non-empty list
    whose set of types is the singleton PDF. *)
Lemma all_pdfs_true (types : list (option string)) :
  all_pdfs types = true <->
  types <> [] /\ (list_to_set types : gset (option string)) = {[ pdf ]}.
Proof.
  unfold all_pdfs. rewrite andb_true_iff, !bool_decide_eq_true. split.
  - intros [Hsize Hhead]. apply head_Some in Hhead as [rest ->].
    split; [done|].
    apply size_1_elem_of in Hsize as [x Hx]. apply leibniz_equiv in Hx.
    rewrite Hx. f_equal.
    assert (pdf ∈ (list_to_set (pdf :: rest) : gset (option string))) as Hin
      by (apply elem_of_list_to_set; by left).
    rewrite Hx in Hin. by apply elem_of_singleton in Hin.
  - intros [Hne Hset]. split; [by rewrite Hset, size_singleton|].
    destruct types as [|t rest]; [done|]. simpl. do 2 f_equal.
    assert (t ∈ (list_to_set (t :: rest) : gset (option string))) as Hin
      by (apply elem_of_list_to_set; by left).
    rewrite Hset in Hin. by apply elem_of_singleton in Hin.
Qed.

Lemma singleton_set_Forall (types : list (option string)) (t : option string) :
  (list_to_set types : gset (option string)) = {[ t ]} ->
  Forall (fun x => x = t) types.
Proof.
  intros Hset. apply Forall_forall. intros x Hx.
  assert (x ∈ (list_to_set types : gset (option string))) as Hin
    by (by apply elem_of_list_to_set).
  rewrite Hset in Hin. by apply elem_of_singleton in Hin.
Qed.

Lemma Forall_singleton_set (types : list (option string)) (t : option string) :
  types <> [] -> Forall (fun x => x = t) types ->
  (list_to_set types : gset (option string)) = {[ t ]}.
Proof.
  intros Hne Hall. apply set_eq. intros x.
  rewrite elem_of_list_to_set, elem_of_singleton. split.
  - intros Hx. by eapply Forall_forall in Hall.
  - intros ->. destruct types as [|y rest]; [done|].
    inversion Hall; subst. by left.
Qed.

(** *** The second loop *)

Lemma build_one_Ok (a : attachment) (d : attach_dict) :
  build_one a = Ok d <->
  exists attach_type,
    inferred_type a = Some attach_type
    /\ d = {| attach_name := name a; attach_type := attach_type;
              attach_size := estimate_size (data a); attach_data := data a |}.
Proof.
  unfold build_one, inferred_type.
  destruct (fst (guess_type (name a))) as [t|].
  - split; [intros [= <-]; eauto | by intros (? & [= <-] & ->)].
  - split; [done | by intros (? & ? & _)].
Qed.

Lemma build_one_Raise (a : attachment) (e : exn) :
  build_one a = Raise e <->
  inferred_type a = None /\ e = local_error (guess_error_message (name a)).
Proof.
  unfold build_one, inferred_type.
  destruct (fst (guess_type (name a))) as [t|].
  - split; [done | by intros [? _]].
  - rewrite exception_guess_error. split; [by intros [= <-] | by intros [_ ->]].
Qed.

(** A successful loop appended one record per attachment, in order. *)
Lemma build_loop_Ok (atts : list attachment) :
  forall build out : list attach_dict,
    build_loop atts build = Ok out <->
    exists ds, out = (build ++ ds)%list
               /\ Forall2 (fun a d => build_one a = Ok d) atts ds.
Proof.
  induction atts as [|a atts IH]; intros build out; simpl.
  - split.
    + intros [= <-]. exists []. by rewrite app_nil_r.
    + intros (ds & -> & Hds). inversion Hds. by rewrite app_nil_r.
  - destruct (build_one a) as [d|e] eqn:Ha; simpl.
    + rewrite IH. split.
      * intros (ds & -> & Hds). exists (d :: ds).
        split; [by rewrite <- app_assoc | by constructor].
      * intros (ds & -> & Hds). inversion Hds as [|? d' ? ds' Hd Hds']; subst.
        assert (d' = d) as -> by congruence.
        exists ds'. split; [by rewrite <- app_assoc | done].
    + split; [done|]. intros (ds & _ & Hds). inversion Hds; congruence.
Qed.

(** A loop that meets an attachment of unknown type raises for the
    first such attachment. *)
Lemma build_loop_first_unknown (atts : list attachment) :
  forall (build : list attach_dict) (a : attachment),
    first_unknown atts = Some a ->
    build_loop atts build = Raise (local_error (guess_error_message (name a))).
Proof.
  induction atts as [|x atts IH]; intros build a; [done|].
  unfold first_unknown. simpl. case_bool_decide as Hx.
  - intros [= <-].
    assert (build_one x = Raise (local_error (guess_error_message (name x))))
      as -> by (by apply build_one_Raise).
    done.
  - intros Hfind. destruct (build_one x) as [d|e] eqn:Hbx; simpl.
    + by apply IH.
    + apply build_one_Raise in Hbx as [? _]. done.
Qed.

Lemma first_unknown_Some (atts : list attachment) (a : attachment) :
  first_unknown atts = Some a -> a ∈ atts /\ inferred_type a = None.
Proof.
  unfold first_unknown. induction atts as [|x atts IH]; [done|]. simpl.
  case_bool_decide as Hx.
  - intros [= <-]. split; [by left | done].
  - intros Hfind. destruct (IH Hfind). split; [by right | done].
Qed.

Lemma first_unknown_exists (atts : list attachment) :
  (exists a, a ∈ atts /\ inferred_type a = None) ->
  exists a, first_unknown atts = Some a.
Proof.
  unfold first_unknown. induction atts as [|x atts IH].
  - intros (a & Ha & _). by apply elem_of_nil in Ha.
  - intros (a & Ha & Hnone). simpl. case_bool_decide as Hx; [eauto|].
    apply elem_of_cons in Ha as [->|Ha]; [done|]. apply IH. eauto.
Qed.

(** *** The merge branch *)

Lemma foldl_append_Raise (e : exn) (streams : list bytes) :
  foldl (fun acc stream => m ← acc; merger_append m stream) (Raise e) streams
  = Raise e.
Proof. induction streams as [|x streams IH]; [done | exact IH]. Qed.

(** The decode-and-append loop is the merge primitive's fold over the
    decoded streams. *)
Lemma append_all_decoded (atts : list attachment) :
  forall (merger : pdf_merger) (streams : list bytes),
    decode_all atts = Ok streams ->
    append_all merger atts
    = foldl (fun acc stream => m ← acc; merger_append m stream)
            (Ok merger) streams.
Proof.
  unfold decode_all.
  induction atts as [|a atts IH]; intros merger streams; simpl.
  - by intros [= <-].
  - destruct (b64decode (data a)) as [x|e]; simpl; [|done].
    destruct (mapM (fun a => b64decode (data a)) atts) as [k|e] eqn:Hk;
      simpl; [|done].
    intros [= <-]. simpl.
    destruct (merger_append merger x) as [merger'|e]; simpl.
    + by apply IH.
    + by rewrite foldl_append_Raise.
Qed.

Lemma merge_branch_true (atts : list attachment) :
  merge_branch atts true = true <-> (1 < length atts)%nat.
Proof. unfold merge_branch. simpl. apply Nat.ltb_lt. Qed.

Lemma merge_branch_false (atts : list attachment) :
  merge_branch atts false = false.
Proof. reflexivity. Qed.

(** What a successful merge rebinds [attachments] to. *)
Lemma merge_attachments_Ok (atts atts' : list attachment) :
  merge_attachments atts = Ok atts' ->
  exists first merged,
    head atts = Some first
    /\ inferred_type first = pdf
    /\ atts' = [ {| name := name first; data := merged |} ].
Proof.
  unfold merge_attachments.
  destruct (all_pdfs (attach_types atts)) eqn:Hpdf; [|done].
  apply all_pdfs_true in Hpdf as [_ Hset].
  apply singleton_set_Forall in Hset.
  destruct atts as [|first rest]; [done|].
  inversion Hset as [|? ? Hfirst _]; subst.
  destruct (append_all PdfFileMerger (first :: rest)) as [merger|]; [|done].
  simpl. destruct (merger_write merger) as [merge_file|]; [|done].
  simpl. intros [= <-]. eauto.
Qed.

(** C1: with [merge] set, at least two attachments and every name
    inferred as application/pdf, the result is the single record named
    after the first attachment whose data is the base64 encoding of the
    merge, in input order, of the decoded payloads (the payloads being
    decodable and the merge primitive accepting them). *)
Theorem build_attachments_merges_pdfs
    (atts : list attachment) (streams : list bytes) (merged : bytes) :
  (2 <= length atts)%nat ->
  Forall (fun a => inferred_type a = pdf) atts ->
  decode_all atts = Ok streams ->
  mergePdfPages streams = Ok merged ->
  exists first,
    head atts = Some first
    /\ build_attachments atts true
       = Ok [ {| attach_name := name first;
                 attach_type := "application/pdf";
                 attach_size := estimate_size (b64encode merged);
                 attach_data := b64encode merged |} ].
Proof.
  intros Hlen Hall Hdec Hmerge.
  destruct atts as [|first rest]; [simpl in Hlen; lia|].
  exists first. split; [done|].
  unfold build_attachments, merged_or_original.
  assert (merge_branch (first :: rest) true = true) as ->
    by (apply merge_branch_true; lia).
  unfold merge_attachments.
  assert (all_pdfs (attach_types (first :: rest)) = true) as ->.
  { apply all_pdfs_true. split; [done|].
    apply Forall_singleton_set; [done|].
    rewrite attach_types_inferred. by apply Forall_fmap. }
  rewrite (append_all_decoded _ _ _ Hdec).
  unfold mergePdfPages in Hmerge.
  destruct (foldl _ _ streams) as [merger|]; [|done].
  simpl in Hmerge |- *. rewrite Hmerge. simpl.
  inversion Hall as [|? ? Hfirst _]; subst.
  unfold build_one. simpl. unfold inferred_type in Hfirst. by rewrite Hfirst.
Qed.

(** The merge branch refuses a list whose set of inferred types is not
    the singleton application/pdf. *)
Lemma merge_attachments_not_pdfs (atts : list attachment) :
  inferred_types atts <> {[ pdf ]} ->
  merge_attachments atts = Raise (local_error merge_error_message).
Proof.
  intros Hset. unfold merge_attachments.
  destruct (all_pdfs (attach_types atts)) eqn:Hpdf; [|done].
  apply all_pdfs_true in Hpdf as [_ Hpdf]. by destruct Hset.
Qed.

(** C2: with [merge] set and more than one attachment, a set of
    inferred types other than the singleton application/pdf makes the
    call raise the local error, whatever the call without [merge] would
    return. *)
Theorem build_attachments_merge_requires_pdfs (atts : list attachment) :
  (1 < length atts)%nat ->
  inferred_types atts <> {[ pdf ]} ->
  build_attachments atts true = Raise (local_error merge_error_message).
Proof.
  intros Hlen Hset. unfold build_attachments, merged_or_original.
  assert (merge_branch atts true = true) as -> by (by apply merge_branch_true).
  by rewrite merge_attachments_not_pdfs.
Qed.

(** C10: with [merge] set and at least two attachments none of which
    has an inferable type, the set of inferred types is the singleton
    of the unknown type, and the call raises the merge error, not the
    error of the per-file inference. *)
Theorem build_attachments_merge_check_first (atts : list attachment) :
  (2 <= length atts)%nat ->
  Forall (fun a => inferred_type a = None) atts ->
  inferred_types atts = {[ None ]}
  /\ build_attachments atts true = Raise (local_error merge_error_message)
  /\ forall attach_name,
       build_attachments atts true
       <> Raise (local_error (guess_error_message attach_name)).
Proof.
  intros Hlen Hall.
  assert (Hset : inferred_types atts = {[ None ]}).
  { apply Forall_singleton_set; [|by apply Forall_fmap].
    destruct atts; [simpl in Hlen; lia | done]. }
  assert (Hraise : build_attachments atts true
                   = Raise (local_error merge_error_message)).
  { unfold build_attachments, merged_or_original.
    assert (merge_branch atts true = true) as ->
      by (apply merge_branch_true; lia).
    rewrite merge_attachments_not_pdfs; [done|].
    rewrite Hset. intros Heq.
    assert (None ∈ ({[ pdf ]} : gset (option string))) as Hin
      by (rewrite <- Heq; by apply elem_of_singleton).
    by apply elem_of_singleton in Hin. }
  split; [done|]. split; [done|].
  intros attach_name. rewrite Hraise. discriminate.
Qed.

(** C8: on a list of exactly one attachment the [merge] flag changes
    nothing, result or error. *)
Theorem build_attachments_single_merge_noop (atts : list attachment) :
  length atts = 1%nat ->
  build_attachments atts true = build_attachments atts false.
Proof.
  intros Hlen. unfold build_attachments, merged_or_original, merge_branch.
  by rewrite Hlen.
Qed.

(** *** The whole method *)

(** A successful call went through the second loop on the merged or
    original list. *)
Lemma build_attachments_Ok (atts : list attachment) (merge : bool)
    (out : list attach_dict) :
  build_attachments atts merge = Ok out ->
  exists atts',
    merged_or_original atts merge = Ok atts'
    /\ Forall2 (fun a d => build_one a = Ok d) atts' out.
Proof.
  unfold build_attachments.
  destruct (merged_or_original atts merge) as [atts'|]; [|done].
  simpl. intros Hloop. apply build_loop_Ok in Hloop as (ds & -> & Hds).
  eauto.
Qed.

(** C3: every record of a successful call, merged or not, has as size
    the floor of 0.75 times the length of its own data (for data of
    fewer than 2^53 / 3 characters, where the binary64 product is
    exact). *)
Theorem build_attachments_size_estimate
    (atts : list attachment) (merge : bool) (out : list attach_dict)
    (d : attach_dict) :
  build_attachments atts merge = Ok out ->
  d ∈ out ->
  (3 * py_len (attach_data d) < 2 ^ 53)%Z ->
  attach_size d = floor_0_75 (py_len (attach_data d)).
Proof.
  intros Hbuild Hd Hbound.
  apply build_attachments_Ok in Hbuild as (atts' & _ & Hall).
  apply list_elem_of_lookup in Hd as [i Hi].
  destruct (Forall2_lookup_r _ _ _ _ _ Hall Hi) as (a & _ & Ha).
  apply build_one_Ok in Ha as (t & _ & ->). simpl in *.
  by apply estimate_size_floor.
Qed.

(** C6: when the list that reaches the second loop holds an attachment
    whose type cannot be inferred, the call raises the local error whose
    description is the message followed by the file name of the first
    such attachment, and returns no list. *)
Theorem build_attachments_unknown_type
    (atts : list attachment) (merge : bool) (atts' : list attachment) :
  merged_or_original atts merge = Ok atts' ->
  (exists a, a ∈ atts' /\ inferred_type a = None) ->
  exists a,
    first_unknown atts' = Some a
    /\ a ∈ atts' /\ inferred_type a = None
    /\ build_attachments atts merge
       = Raise (local_error ("Cannot guess mime type for " ++ name a))
    /\ forall out, build_attachments atts merge <> Ok out.
Proof.
  intros Hreach Hsome.
  destruct (first_unknown_exists _ Hsome) as [a Ha].
  destruct (first_unknown_Some _ _ Ha) as [Hin Hnone].
  assert (Hraise : build_attachments atts merge
                   = Raise (local_error (guess_error_message (name a)))).
  { unfold build_attachments. rewrite Hreach. simpl.
    by apply build_loop_first_unknown. }
  exists a. repeat split; [done..|].
  intros out. by rewrite Hraise.
Qed.

(** C7: a successful call returns one record per attachment of the
    merged or original list, in the same order and with the same names
    and data: a single record named after the first input when the
    merge branch ran, as many records as inputs otherwise; the empty
    list with [merge] set gives the empty list. *)
Theorem build_attachments_order_and_length :
  (forall (atts : list attachment) (merge : bool) (out : list attach_dict),
      build_attachments atts merge = Ok out ->
      exists atts',
        merged_or_original atts merge = Ok atts'
        /\ attach_name <$> out = name <$> atts'
        /\ attach_data <$> out = data <$> atts'
        /\ if merge_branch atts merge
           then length out = 1%nat
                /\ exists first, head atts = Some first
                                 /\ name <$> atts' = [name first]
           else atts' = atts /\ length out = length atts)
  /\ build_attachments [] true = Ok [].
Proof.
  split; [|done].
  intros atts merge out Hbuild.
  apply build_attachments_Ok in Hbuild as (atts' & Hreach & Hall).
  exists atts'. split; [done|].
  assert (Hnames : attach_name <$> out = name <$> atts'
                   /\ attach_data <$> out = data <$> atts').
  { clear Hreach. induction Hall as [|a d atts' out Hone _ [IHn IHd]]; [done|].
    apply build_one_Ok in Hone as (t & _ & ->).
    rewrite !fmap_cons, IHn, IHd. done. }
  destruct Hnames as [Hn Hd]. split; [done|]. split; [done|].
  pose proof (Forall2_length _ _ _ Hall) as Hlen.
  unfold merged_or_original in Hreach.
  destruct (merge_branch atts merge).
  - apply merge_attachments_Ok in Hreach as (first & merged & Hhead & _ & ->).
    split; [by rewrite <- Hlen | eauto].
  - injection Hreach as <-. split; [done | by rewrite <- Hlen].
Qed.
End BuildAttachmentsProperties.

(** ** The object store: the arguments are left as they were *)

Lemma wp_reads_only {A} (m : M A) h (Q : result A -> gmap loc obj -> Prop) :
  reads_only m h -> (forall r, Q r h) -> wp m h Q.
Proof. intros [r Hr] HQ. unfold wp. by rewrite Hr. Qed.

Lemma wp_bind {A B} (m : M A) (k : A -> M B) h
    (Q : result B -> gmap loc obj -> Prop) :
  wp m h (fun r h' => match r with
                      | Ok a => wp (k a) h' Q
                      | Raise e => Q (Raise e) h'
                      end) ->
  wp (m ≫= k) h Q.
Proof.
  unfold wp, mbind, M_bind. destruct (m h) as [[[a|e] h']|]; done.
Qed.

Lemma wp_mono {A} (m : M A) h (Q Q' : result A -> gmap loc obj -> Prop) :
  wp m h Q -> (forall r h', Q r h' -> Q' r h') -> wp m h Q'.
Proof. unfold wp. destruct (m h) as [[r h']|]; [auto | done]. Qed.

Lemma reads_only_ret {A} (a : A) h : reads_only (mret a) h.
Proof. by exists (Ok a). Qed.

Lemma reads_only_raise {A} (e : exn) h : reads_only (raise (A:=A) e) h.
Proof. by exists (Raise e). Qed.

Lemma reads_only_lift {A} (r : result A) h : reads_only (lift r) h.
Proof. by exists r. Qed.

Lemma reads_only_bind {A B} (m : M A) (k : A -> M B) h :
  reads_only m h -> (forall a, reads_only (k a) h) -> reads_only (m ≫= k) h.
Proof.
  intros [[a|e] Hm] Hk; unfold reads_only, mbind, M_bind; rewrite Hm.
  - apply Hk.
  - by exists (Raise e).
Qed.

Lemma reads_only_read l o h : h !! l = Some o -> reads_only (read l) h.
Proof. intros Hl. exists (Ok o). unfold read. by rewrite Hl. Qed.

Lemma reads_only_getitem x key h :
  is_Some (h !! x) -> reads_only (getitem x key) h.
Proof.
  intros [o Ho]. unfold getitem. apply reads_only_bind.
  - by eapply reads_only_read.
  - intros [items|fields]; [apply reads_only_raise|].
    destruct (fields !! key); [apply reads_only_ret | apply reads_only_raise].
Qed.

Lemma reads_only_len x h : is_Some (h !! x) -> reads_only (len x) h.
Proof.
  intros [o Ho]. unfold len. apply reads_only_bind.
  - by eapply reads_only_read.
  - intros [items|fields]; apply reads_only_ret.
Qed.

Lemma reads_only_on_str {A} (v : pyval) (k : string -> M A) h :
  (forall s, reads_only (k s) h) -> reads_only (on_str v k) h.
Proof. intros Hk. destruct v; simpl; auto using reads_only_raise. Qed.

(** A loop whose body only reads, over an object that exists, with
    enough fuel for its iterations. *)
Lemma reads_only_for_in {St} (body : loc -> St -> M St) iterable o h :
  h !! iterable = Some o ->
  (forall items x s, o = OList items -> x ∈ items -> reads_only (body x s) h) ->
  forall fuel i s,
    (iterations o - i < fuel)%nat ->
    reads_only (for_in fuel iterable i body s) h.
Proof.
  intros Ho Hbody. induction fuel as [|fuel IH]; intros i s Hfuel; [lia|].
  unfold reads_only. simpl. unfold mbind at 1, M_bind, read. rewrite Ho.
  destruct o as [items|fields]; simpl.
  - destruct (items !! i) as [x|] eqn:Hx; [|by eexists].
    destruct (Hbody items x s eq_refl) as [[s'|e] Hr];
      [by eapply list_elem_of_lookup_2 | |].
    + unfold mbind, M_bind. rewrite Hr. apply IH.
      apply lookup_lt_Some in Hx. simpl in *. lia.
    + unfold mbind, M_bind. rewrite Hr. by eexists.
  - case_bool_decide; by eexists.
Qed.

(** A loop whose body keeps an invariant of the store that fixes the
    iterated object. *)
Lemma wp_for_in {St} (I : gmap loc obj -> Prop) (body : loc -> St -> M St)
    iterable o :
  (forall h, I h -> h !! iterable = Some o) ->
  (forall items x s h, o = OList items -> x ∈ items -> I h ->
                       wp (body x s) h (fun _ h' => I h')) ->
  forall fuel i s h,
    (iterations o - i < fuel)%nat -> I h ->
    wp (for_in fuel iterable i body s) h (fun _ h' => I h').
Proof.
  intros Hit Hbody. induction fuel as [|fuel IH]; intros i s h Hfuel HI; [lia|].
  unfold wp. simpl. unfold mbind at 1, M_bind, read. rewrite (Hit h HI).
  destruct o as [items|fields]; simpl.
  - destruct (items !! i) as [x|] eqn:Hx; [|done].
    assert (Hb : wp (body x s) h (fun _ h' => I h'))
      by (eapply Hbody; [done | by eapply list_elem_of_lookup_2 | done]).
    unfold wp in Hb. unfold mbind, M_bind.
    destruct (body x s h) as [[[s'|e] h']|]; [|done..].
    apply IH; [|done]. apply lookup_lt_Some in Hx. simpl in *. lia.
  - by case_bool_decide.
Qed.

Section StoreProperties.
Context `{Externals}.

Lemma reads_only_attach_types_h fuel attachments o h :
  h !! attachments = Some o -> closed h -> (iterations o < fuel)%nat ->
  reads_only (attach_types_h fuel attachments) h.
Proof.
  intros Ho Hclosed Hfuel. unfold attach_types_h.
  eapply reads_only_for_in; [done| |lia].
  intros items x acc -> Hx. apply reads_only_bind.
  - apply reads_only_getitem. by eapply Hclosed.
  - intros v. apply reads_only_on_str. intros s. apply reads_only_ret.
Qed.

Lemma reads_only_append_all_h fuel attachments merger o h :
  h !! attachments = Some o -> closed h -> (iterations o < fuel)%nat ->
  reads_only (append_all_h fuel attachments merger) h.
Proof.
  intros Ho Hclosed Hfuel. unfold append_all_h.
  eapply reads_only_for_in; [done| |lia].
  intros items x acc -> Hx. apply reads_only_bind.
  - apply reads_only_getitem. by eapply Hclosed.
  - intros v. apply reads_only_on_str. intros s. apply reads_only_bind.
    + apply reads_only_lift.
    + intros temp_file. apply reads_only_lift.
Qed.

Lemma closed_alloc_dict h fields :
  closed h -> closed (<[fresh (dom h) := ODict fields]> h).
Proof.
  intros Hclosed l items Hl x Hx.
  pose proof (is_fresh (dom h)) as Hfresh.
  destruct (decide (l = fresh (dom h))) as [->|Hne].
  - by rewrite lookup_insert_eq in Hl.
  - rewrite lookup_insert_ne in Hl by done.
    destruct (Hclosed l items Hl x Hx) as [o Ho].
    rewrite lookup_insert_ne; [eauto|].
    intros <-. apply Hfresh. apply elem_of_dom. eauto.
Qed.

Lemma closed_insert_list h l items :
  closed h -> (forall x, x ∈ items -> is_Some (h !! x)) ->
  closed (<[l := OList items]> h).
Proof.
  intros Hclosed Hitems l' items' Hl' x Hx.
  assert (is_Some (h !! x)) as [o Ho].
  { destruct (decide (l' = l)) as [->|Hne].
    - rewrite lookup_insert_eq in Hl'. injection Hl' as <-. auto.
    - rewrite lookup_insert_ne in Hl' by done. by eapply Hclosed. }
  destruct (decide (x = l)) as [->|Hne].
  - rewrite lookup_insert_eq. eauto.
  - rewrite lookup_insert_ne by done. eauto.
Qed.

Lemma subseteq_alloc (h0 h : gmap loc obj) o :
  h0 ⊆ h -> h0 ⊆ <[fresh (dom h) := o]> h.
Proof.
  intros Hsub. apply insert_subseteq_r; [|done].
  apply not_elem_of_dom. intros Hin.
  apply (is_fresh (dom h)). by eapply subseteq_dom.
Qed.

(** The merge branch only reads the store, then allocates the merged
    dict and the one-element list that holds it. *)
Lemma wp_merge_attachments_h fuel attachments o h :
  h !! attachments = Some o -> closed h -> (iterations o < fuel)%nat ->
  wp (merge_attachments_h fuel attachments) h
     (fun r h' =>
        h ⊆ h' /\ closed h'
        /\ forall attachments', r = Ok attachments' ->
             (attachments' ∉ dom h)
             /\ exists merged, h' !! attachments' = Some (OList [merged])).
Proof.
  intros Ho Hclosed Hfuel. unfold merge_attachments_h.
  apply wp_bind.
  apply wp_reads_only; [by eapply reads_only_attach_types_h|].
  intros [types|e]; [|done].
  destruct (all_pdfs types); [|done].
  apply wp_bind. unfold wp at 1, read. rewrite Ho.
  destruct o as [[|first rest]|fields]; [done| |done].
  apply wp_bind.
  apply wp_reads_only;
    [apply reads_only_getitem; eapply Hclosed; [done | by left]|].
  intros [merge_name|e]; [|done].
  apply wp_bind.
  apply wp_reads_only; [by eapply reads_only_append_all_h|].
  intros [merger|e]; [|done].
  apply wp_bind. unfold wp at 1, lift.
  destruct (merger_write merger) as [merge_file|e]; [|done].
  apply wp_bind. unfold wp at 1, alloc.
  set (fields := ({[ "name" := merge_name;
                     "data" := PStr (b64encode merge_file) ]} : gmap string pyval)).
  set (merged := fresh (dom h)).
  set (h1 := <[merged := ODict fields]> h).
  unfold wp, alloc. fold h1.
  set (attachments' := fresh (dom h1)).
  assert (Hsub1 : h ⊆ h1) by (by apply subseteq_alloc).
  assert (Hnew : attachments' ∉ dom h1) by apply is_fresh.
  split; [|split].
  - etrans; [exact Hsub1 | by apply subseteq_alloc].
  - apply closed_insert_list; [by apply closed_alloc_dict|].
    intros x Hx. apply list_elem_of_singleton in Hx as ->.
    unfold h1. rewrite lookup_insert_eq. eauto.
  - intros attachments'' [= <-]. split.
    + intros Hin. apply Hnew. by eapply subseteq_dom.
    + exists merged. by rewrite lookup_insert_eq.
Qed.

Lemma wp_build_one_h h0 build attachments' o' attachment h :
  build ∉ dom h0 -> attachments' <> build ->
  is_Some (h !! attachment) ->
  building h0 build h /\ h !! attachments' = Some o' ->
  wp (build_one_h build attachment) h
     (fun _ h' => building h0 build h' /\ h' !! attachments' = Some o').
Proof.
  intros Hbuild Hne Hatt [(Hsub & Hclosed & items & Hitems & Hfresh) Ho'].
  assert (Hkeep : building h0 build h /\ h !! attachments' = Some o')
    by (split; [split; [|split]; eauto | done]).
  unfold build_one_h.
  apply wp_bind. apply wp_reads_only; [by apply reads_only_getitem|].
  intros [attach_name|e]; [|done].
  apply wp_bind. apply wp_reads_only; [by apply reads_only_getitem|].
  intros [attach_data|e]; [|done].
  destruct attach_name as [| |n|]; try done. simpl.
  destruct (fst (guess_type n)) as [attach_type|]; [|done].
  destruct attach_data as [| |d|]; try done. simpl.
  set (fields := ({[ "name" := PStr n; "type" := PStr attach_type;
                     "size" := PInt (estimate_size d);
                     "data" := PStr d ]} : gmap string pyval)).
  set (x := fresh (dom h)).
  assert (Hx : x ∉ dom h) by apply is_fresh.
  assert (Hxb : x <> build).
  { intros ->. apply Hx. apply elem_of_dom. eauto. }
  unfold wp. cbv [mbind M_bind alloc append read write]. fold x. fold fields.
  rewrite lookup_insert_ne, Hitems by done.
  set (h1 := <[x := ODict fields]> h).
  assert (Hsub1 : h ⊆ h1).
  { apply insert_subseteq. by apply not_elem_of_dom. }
  split; [split; [|split]|].
  - apply insert_subseteq_r; [by apply not_elem_of_dom|].
    by apply subseteq_alloc.
  - apply closed_insert_list; [by apply closed_alloc_dict|].
    intros y Hy. apply elem_of_app in Hy as [Hy|Hy].
    + eapply Forall_forall in Hfresh as [_ [fs Hfs]]; [|done].
      exists (ODict fs). by eapply lookup_weaken.
    + apply list_elem_of_singleton in Hy as ->.
      unfold h1. rewrite lookup_insert_eq. eauto.
  - exists (items ++ [x])%list. split; [by rewrite lookup_insert_eq|].
    apply Forall_app. split.
    + eapply Forall_impl; [exact Hfresh|]. intros y [Hy0 [fs Hfs]].
      split; [done|]. exists fs.
      rewrite lookup_insert_ne by (intros <-; congruence).
      by eapply lookup_weaken.
    + apply Forall_singleton. split.
      * intros Hin. apply Hx. by eapply subseteq_dom.
      * exists fields. rewrite lookup_insert_ne by done.
        unfold h1. by rewrite lookup_insert_eq.
  - rewrite lookup_insert_ne by done. by eapply lookup_weaken.
Qed.

Lemma wp_build_attachments_h h0 attachments o merge fuel :
  closed h0 -> h0 !! attachments = Some o ->
  (iterations o < fuel)%nat -> (1 < fuel)%nat ->
  wp (build_attachments_h fuel attachments merge) h0
     (fun r h' =>
        h0 ⊆ h'
        /\ forall build, r = Ok build ->
              (build ∉ dom h0) /\ building h0 build h').
Proof.
  intros Hclosed Ho Hfuel Hfuel1. unfold build_attachments_h.
  set (build := fresh (dom h0)).
  assert (Hbuild : build ∉ dom h0) by apply is_fresh.
  assert (Hab : attachments <> build).
  { intros Heq. apply Hbuild. rewrite <- Heq. apply elem_of_dom. eauto. }
  set (h1 := <[build := OList []]> h0).
  assert (Hsub1 : h0 ⊆ h1).
  { apply insert_subseteq. by apply not_elem_of_dom. }
  assert (Hclosed1 : closed h1).
  { apply closed_insert_list; [done|]. intros x Hx. by apply elem_of_nil in Hx. }
  assert (Ho1 : h1 !! attachments = Some o) by (by eapply lookup_weaken).
  assert (Hb1 : building h0 build h1).
  { split; [done|]. split; [done|]. exists []. split; [|done].
    unfold h1. by rewrite lookup_insert_eq. }
  apply wp_bind. unfold wp at 1, alloc. fold build. fold h1.
  apply wp_bind.
  (* the second loop, on the list it is given *)
  assert (Hloop : forall attachments' o' h,
             building h0 build h -> h !! attachments' = Some o' ->
             attachments' <> build -> (iterations o' < fuel)%nat ->
             wp (for_in fuel attachments' 0
                   (fun attachment _ => build_one_h build attachment) ();;
                 mret build) h
                (fun r h' =>
                   h0 ⊆ h'
                   /\ forall build, r = Ok build ->
                         (build ∉ dom h0) /\ building h0 build h')).
  { intros attachments' o' h Hb Ho' Hne' Hfuel'.
    apply wp_bind.
    eapply wp_mono.
    - apply (wp_for_in
               (fun h => building h0 build h /\ h !! attachments' = Some o')
               _ attachments' o'); [by intros ? [_ ?]| |lia|done].
      intros items x s h2 -> Hx HI.
      apply (wp_build_one_h h0 build attachments' (OList items)); [done..| |done].
      destruct HI as [(_ & Hcl & _) Hl]. by eapply Hcl.
    - intros r h' [Hb' _]. destruct r as [[]|e].
      + unfold wp. simpl. split; [by destruct Hb'|]. by intros ? [= <-].
      + split; [by destruct Hb' | done]. }
  destruct merge.
  - apply wp_bind. apply wp_reads_only; [apply reads_only_len; eauto|].
    intros [n|e]; [|done].
    destruct (1 <? n)%nat eqn:Hn.
    + eapply wp_mono; [by eapply wp_merge_attachments_h|].
      intros r h2 (Hsub2 & Hclosed2 & Hnew).
      assert (Hb2 : building h0 build h2).
      { destruct Hb1 as (_ & _ & items & Hitems & Hall).
        split; [by etrans|]. split; [done|]. exists items.
        split; [by eapply lookup_weaken|].
        eapply Forall_impl; [exact Hall|]. intros x [Hx [fs Hfs]].
        split; [done|]. exists fs. by eapply lookup_weaken. }
      destruct r as [attachments'|e].
      * destruct (Hnew _ eq_refl) as [Hfresh [merged Hmerged]].
        eapply Hloop; [done..| |simpl; lia].
        intros ->. apply Hfresh. apply elem_of_dom.
        unfold h1. rewrite lookup_insert_eq. eauto.
      * split; [by destruct Hb2 | done].
    + unfold wp at 1. simpl. by eapply Hloop.
  - unfold wp at 1. simpl. by eapply Hloop.
Qed.
End StoreProperties.

Section StoreFrame.
Context `{Externals}.

(** C9: a call, returning or raising, leaves every object of the store
    it was given as it was, so the argument list and the attachment
    dicts keep their entries; the returned list and the dicts it holds
    are objects that did not exist before the call. *)
Theorem build_attachments_leaves_arguments
    (h0 : gmap loc obj) (attachments : loc) (o : obj) (merge : bool)
    (fuel : nat) :
  closed h0 -> h0 !! attachments = Some o ->
  (iterations o < fuel)%nat -> (1 < fuel)%nat ->
  exists r h',
    build_attachments_h fuel attachments merge h0 = Some (r, h')
    /\ (forall l x, h0 !! l = Some x -> h' !! l = Some x)
    /\ forall build, r = Ok build ->
         h0 !! build = None
         /\ exists items,
              h' !! build = Some (OList items)
              /\ Forall (fun x => h0 !! x = None
                                  /\ exists fields, h' !! x = Some (ODict fields))
                        items.
Proof.
  intros Hclosed Ho Hfuel Hfuel1.
  pose proof (wp_build_attachments_h h0 attachments o merge fuel
                Hclosed Ho Hfuel Hfuel1) as Hwp.
  unfold wp in Hwp.
  destruct (build_attachments_h fuel attachments merge h0) as [[r h']|];
    [|done].
  destruct Hwp as [Hsub Hok]. exists r, h'. split; [done|]. split.
  - intros l x Hl. by eapply lookup_weaken.
  - intros build Hr.
    destruct (Hok build Hr) as (Hnew & _ & _ & items & Hitems & Hall).
    split; [by apply not_elem_of_dom|]. exists items. split; [done|].
    eapply Forall_impl; [exact Hall|]. intros x [Hx Hfields].
    split; [by apply not_elem_of_dom | done].
Qed.
End StoreFrame.

(** ** The method on the store and the method on the list *)

Lemma getitem_field h x fields key v :
  h !! x = Some (ODict fields) -> fields !! key = Some v ->
  getitem x key h = Some (Ok v, h).
Proof.
  intros Hx Hkey. unfold getitem. cbv [mbind M_bind read].
  by rewrite Hx, Hkey.
Qed.

Lemma drop_cons_inv {A} (l : list A) i x rest :
  drop i l = x :: rest -> l !! i = Some x /\ drop (S i) l = rest.
Proof.
  intros Hdrop.
  assert (Hx : l !! i = Some x).
  { rewrite <- (Nat.add_0_r i), <- lookup_drop. by rewrite Hdrop. }
  split; [done|]. rewrite (drop_S _ _ _ Hx) in Hdrop. congruence.
Qed.

Lemma for_in_reads {St} (body : loc -> St -> M St)
    (g : attachment -> St -> result St) h iterable items :
  h !! iterable = Some (OList items) ->
  (forall x a s, holds_attachment h x a -> body x s h = Some (g a s, h)) ->
  forall fuel i tail s,
    Forall2 (holds_attachment h) (drop i items) tail ->
    (length tail < fuel)%nat ->
    for_in fuel iterable i body s h = Some (fold_attachments g tail s, h).
Proof.
  intros Hit Hbody. induction fuel as [|fuel IH]; intros i tail s Hall Hfuel; [lia|].
  simpl. cbv [mbind M_bind read]. rewrite Hit.
  inversion Hall as [Hnil|x a rest tail' Hxa Hrest Hcons]; subst.
  - symmetry in Hnil. apply drop_nil_inv in Hnil.
    by rewrite lookup_ge_None_2.
  - symmetry in Hcons. apply drop_cons_inv in Hcons as [Hx <-].
    rewrite Hx, (Hbody x a s Hxa). simpl.
    destruct (g a s) as [s'|e]; [|done].
    apply IH; [done | simpl in Hfuel; lia].
Qed.

Section Refinement.
Context `{Externals}.

Lemma fold_attachments_types (atts : list attachment) :
  forall acc : list (option string),
    fold_attachments
      (fun a acc => Ok (acc ++ [fst (guess_type (name a))])%list) atts acc
    = Ok (acc ++ attach_types atts)%list.
Proof.
  induction atts as [|a atts IH]; intros acc.
  - simpl. by rewrite app_nil_r.
  - change (attach_types (a :: atts))
      with (fst (guess_type (name a)) :: attach_types atts).
    simpl. rewrite IH. by rewrite <- app_assoc.
Qed.

Lemma fold_attachments_append_all (atts : list attachment) :
  forall merger : pdf_merger,
    fold_attachments
      (fun a merger =>
         temp_file ← b64decode (data a); merger_append merger temp_file)
      atts merger
    = append_all merger atts.
Proof.
  induction atts as [|a atts IH]; intros merger; simpl; [done|].
  destruct (b64decode (data a)) as [temp_file|]; simpl; [|done].
  destruct (merger_append merger temp_file); simpl; [apply IH | done].
Qed.

Lemma attach_types_h_run h attachments atts fuel :
  holds_attachments h attachments atts -> (length atts < fuel)%nat ->
  attach_types_h fuel attachments h = Some (Ok (attach_types atts), h).
Proof.
  intros (items & Hl & Hall) Hfuel. unfold attach_types_h.
  rewrite (for_in_reads _
             (fun a acc => Ok (acc ++ [fst (guess_type (name a))])%list)
             h attachments items Hl) with (tail := atts); [|..|done|done].
  - by rewrite fold_attachments_types.
  - intros x a acc (fields & Hx & Hname & _).
    cbv [mbind M_bind]. by rewrite (getitem_field _ _ _ _ _ Hx Hname).
Qed.

Lemma append_all_h_run h attachments atts fuel merger :
  holds_attachments h attachments atts -> (length atts < fuel)%nat ->
  append_all_h fuel attachments merger h = Some (append_all merger atts, h).
Proof.
  intros (items & Hl & Hall) Hfuel. unfold append_all_h.
  rewrite (for_in_reads _
             (fun a merger =>
                temp_file ← b64decode (data a); merger_append merger temp_file)
             h attachments items Hl) with (tail := atts); [|..|done|done].
  - by rewrite fold_attachments_append_all.
  - intros x a m (fields & Hx & _ & Hdata).
    cbv [mbind M_bind]. rewrite (getitem_field _ _ _ _ _ Hx Hdata). simpl.
    unfold lift. by destruct (b64decode (data a)).
Qed.

Lemma holds_attachment_weaken h h' x a :
  h ⊆ h' -> holds_attachment h x a -> holds_attachment h' x a.
Proof.
  intros Hsub (fields & Hx & Hname & Hdata). exists fields.
  split; [by eapply lookup_weaken | done].
Qed.

(** The merge branch on the store is the merge branch on the list. *)
Lemma merge_attachments_h_run h attachments atts fuel :
  holds_attachments h attachments atts -> (length atts < fuel)%nat ->
  exists r h',
    merge_attachments_h fuel attachments h = Some (r, h')
    /\ h ⊆ h'
    /\ match merge_attachments atts with
       | Ok atts' =>
           exists attachments',
             r = Ok attachments' /\ (attachments' ∉ dom h)
             /\ holds_attachments h' attachments' atts'
       | Raise e => r = Raise e
       end.
Proof.
  intros Hatts Hfuel. unfold merge_attachments_h, merge_attachments.
  cbv [mbind M_bind]. rewrite (attach_types_h_run _ _ _ _ Hatts Hfuel).
  destruct (all_pdfs (attach_types atts)); [|by eexists _, h].
  destruct Hatts as (items & Hl & Hall). unfold read at 1. rewrite Hl.
  inversion Hall as [|first a rest atts' Hfirst Hrest]; subst;
    [by eexists _, h|].
  destruct Hfirst as (fields & Hx & Hname & Hdata).
  rewrite (getitem_field _ _ _ _ _ Hx Hname).
  rewrite (append_all_h_run h attachments (a :: atts') fuel);
    [|by exists (first :: rest) | done].
  destruct (append_all PdfFileMerger (a :: atts')) as [merger|e];
    [|by eexists _, h].
  unfold lift. simpl.
  destruct (merger_write merger) as [merge_file|e];
    [|by eexists _, h].
  simpl. unfold alloc.
  set (merged := fresh (dom h)).
  set (h1 := <[merged := _]> h).
  set (attachments' := fresh (dom h1)).
  assert (Hm : merged ∉ dom h) by apply is_fresh.
  assert (Ha : attachments' ∉ dom h1) by apply is_fresh.
  assert (Hsub1 : h ⊆ h1) by (apply insert_subseteq; by apply not_elem_of_dom).
  assert (Hsub2 : h1 ⊆ <[attachments' := OList [merged]]> h1)
    by (apply insert_subseteq; by apply not_elem_of_dom).
  eexists _, _. split; [done|]. split; [by etrans|].
  exists attachments'. split; [done|]. split.
  - intros Hin. apply Ha. by eapply subseteq_dom.
  - exists [merged]. split; [by rewrite lookup_insert_eq|].
    constructor; [|done]. eexists. split.
    + eapply lookup_weaken; [|exact Hsub2]. unfold h1. by rewrite lookup_insert_eq.
    + done.
Qed.

(** The second loop on the store is [build_loop] on the list. *)
Lemma build_loop_h_run build attachments items :
  attachments <> build ->
  forall fuel i tail acc h bitems,
    h !! attachments = Some (OList items) ->
    Forall2 (holds_attachment h) (drop i items) tail ->
    h !! build = Some (OList bitems) ->
    Forall2 (holds_built h) bitems acc ->
    (length tail < fuel)%nat ->
    exists r h',
      for_in fuel attachments i
        (fun attachment _ => build_one_h build attachment) () h
      = Some (r, h')
      /\ match build_loop tail acc with
         | Ok out =>
             r = Ok ()
             /\ exists bitems',
                  h' !! build = Some (OList bitems')
                  /\ Forall2 (holds_built h') bitems' out
         | Raise e => r = Raise e
         end.
Proof.
  intros Hne. induction fuel as [|fuel IH];
    intros i tail acc h bitems Hit Hall Hbuild Hacc Hfuel; [lia|].
  simpl for_in. cbv [mbind M_bind read]. rewrite Hit.
  inversion Hall as [Hnil|x a rest tail' Hxa Hrest Hcons]; subst.
  - symmetry in Hnil. apply drop_nil_inv in Hnil.
    rewrite lookup_ge_None_2 by done. simpl. eauto 10.
  - symmetry in Hcons. apply drop_cons_inv in Hcons as [Hx <-].
    rewrite Hx. destruct Hxa as (fields & Hfx & Hname & Hdata).
    unfold build_one_h. cbv [mbind M_bind].
    rewrite (getitem_field _ _ _ _ _ Hfx Hname).
    rewrite (getitem_field _ _ _ _ _ Hfx Hdata).
    simpl on_str. simpl build_loop. unfold build_one.
    destruct (fst (guess_type (name a))) as [attach_type|];
      [|simpl; eauto].
    unfold alloc, append. cbv [mbind M_bind read write].
    set (d := fresh (dom h)).
    assert (Hd : d ∉ dom h) by apply is_fresh.
    assert (Hdb : d <> build).
    { intros ->. apply Hd. apply elem_of_dom. eauto. }
    rewrite lookup_insert_ne, Hbuild by done.
    set (h1 := <[d := _]> h).
    set (h2 := <[build := _]> h1).
    assert (Hdict : forall y fs, h !! y = Some (ODict fs) ->
                                 h2 !! y = Some (ODict fs)).
    { intros y fs Hy. unfold h2, h1.
      rewrite lookup_insert_ne by (intros <-; congruence).
      rewrite lookup_insert_ne; [done|].
      intros <-. apply Hd. apply elem_of_dom. eauto. }
    simpl.
    apply (IH (S i) tail'
             (acc ++ [ {| attach_name := name a; attach_type := attach_type;
                          attach_size := estimate_size (data a);
                          attach_data := data a |} ])%list
             h2 (bitems ++ [d])%list).
    + unfold h2, h1. rewrite lookup_insert_ne by done.
      rewrite lookup_insert_ne; [done|].
      intros <-. apply Hd. apply elem_of_dom. eauto.
    + eapply Forall2_impl; [exact Hrest|].
      intros y b (fs & Hy & Hn & Hdt). exists fs. eauto.
    + unfold h2. by rewrite lookup_insert_eq.
    + apply Forall2_app.
      * eapply Forall2_impl; [exact Hacc|]. intros y b Hy. by apply Hdict.
      * constructor; [|done]. unfold holds_built, h2, h1.
        rewrite lookup_insert_ne by done. by rewrite lookup_insert_eq.
    + simpl in Hfuel. lia.
Qed.

(** X6: on a store that holds the list [atts], the method on the store
    returns what the method on the list returns: the same error, or a
    fresh list of dicts holding the same records. *)
Theorem build_attachments_h_refines h0 attachments atts merge fuel :
  holds_attachments h0 attachments atts ->
  (length atts < fuel)%nat -> (1 < fuel)%nat ->
  exists r h',
    build_attachments_h fuel attachments merge h0 = Some (r, h')
    /\ match build_attachments atts merge with
       | Ok out =>
           exists build items,
             r = Ok build
             /\ h' !! build = Some (OList items)
             /\ Forall2 (holds_built h') items out
       | Raise e => r = Raise e
       end.
Proof.
  intros Hatts Hfuel Hfuel1. unfold build_attachments_h.
  cbv [mbind M_bind alloc].
  set (build := fresh (dom h0)).
  assert (Hbuild : build ∉ dom h0) by apply is_fresh.
  set (h1 := <[build := OList []]> h0).
  assert (Hsub1 : h0 ⊆ h1) by (apply insert_subseteq; by apply not_elem_of_dom).
  assert (Hb1 : h1 !! build = Some (OList []))
    by (unfold h1; by rewrite lookup_insert_eq).
  assert (Hatts1 : holds_attachments h1 attachments atts).
  { destruct Hatts as (items & Hl & Hall). exists items.
    split; [by eapply lookup_weaken|].
    eapply Forall2_impl; [exact Hall|]. intros x a.
    by apply holds_attachment_weaken. }
  assert (Hab : attachments <> build).
  { intros Heq. apply Hbuild. rewrite <- Heq.
    destruct Hatts as (items & Hl & _). apply elem_of_dom. eauto. }
  (* the second loop, on the list it is given *)
  assert (Hloop : forall attachments' atts' h,
             holds_attachments h attachments' atts' ->
             attachments' <> build -> h !! build = Some (OList []) ->
             (length atts' < fuel)%nat ->
             exists r h',
               match
                 for_in fuel attachments' 0
                   (fun attachment _ => build_one_h build attachment) () h
               with
               | Some (Ok _, h') => Some (Ok build, h')
               | Some (Raise e, h') => Some (Raise e, h')
               | None => None
               end = Some (r, h')
               /\ match build_loop atts' [] with
                  | Ok out =>
                      exists build items,
                        r = Ok build
                        /\ h' !! build = Some (OList items)
                        /\ Forall2 (holds_built h') items out
                  | Raise e => r = Raise e
                  end).
  { intros attachments' atts' h (items & Hl & Hall) Hne Hb Hlen.
    assert (Hnil : Forall2 (holds_built h) [] []) by constructor.
    destruct (build_loop_h_run build attachments' items Hne fuel 0 atts' []
                h [] Hl Hall Hb Hnil Hlen) as (r & h' & -> & Hr).
    destruct (build_loop atts' []) as [out|e].
    - destruct Hr as (-> & bitems' & Hb' & Hout). eauto 10.
    - subst r. eauto. }
  unfold build_attachments, merged_or_original, merge_branch.
  destruct merge; simpl andb; [|by apply Hloop].
  destruct Hatts1 as (items & Hl & Hall).
  unfold len. cbv [mbind M_bind read]. rewrite Hl. simpl.
  rewrite <- (Forall2_length _ _ _ Hall).
  destruct (1 <? length items)%nat;
    [|apply Hloop; [by exists items | done..]].
  destruct (merge_attachments_h_run h1 attachments atts fuel)
    as (r & h2 & -> & Hsub2 & Hr); [by exists items | done |].
  destruct (merge_attachments atts) as [atts'|e] eqn:Hmerge;
    [|subst r; by eexists _, _].
  destruct Hr as (attachments' & -> & Hnew & Hatts').
  simpl. apply Hloop; [done| |by eapply lookup_weaken|].
  - intros ->. apply Hnew. apply elem_of_dom. eauto.
  - apply merge_attachments_Ok in Hmerge as (? & ? & _ & _ & ->). simpl. lia.
Qed.
End Refinement.

(** ** Sending an agreement: the local checks *)

Section SendAgreementProperties.
Context `{Externals} `{Remote}.

(** X7: a phone number that [valid_mobile] rejects stops the call with
    the local error before anything is logged. *)
Lemma send_agreement_invalid_phone
    (self : MailCertificado) (to subject body : string)
    (attachments : list attachment) (accept_phone : string)
    (sms_phone sms_body : option string) (log : list event) :
  valid_mobile (Some accept_phone) = Ok false ->
  send_agreement self to subject body attachments
    (Some 1%Z) (Some accept_phone) sms_phone sms_body log
  = (Raise (local_error ("Mobile phone " ++ accept_phone
                          ++ " does not seem to be a valid number")),
     log).
Proof.
  intros Hvalid. unfold send_agreement, previous_checks.
  cbv [mbind IO_bind local]. rewrite bool_decide_eq_true_2 by done.
  rewrite Hvalid. simpl. reflexivity.
Qed.

(** C5, at the missing phone number: with [accept_method = 1] and no
    [accept_phone] the call stops before any remote interaction, but
    with the [TypeError] of [valid_mobile(None)], which is not the
    error of the library. *)
Theorem send_agreement_missing_phone
    (self : MailCertificado) (to subject body : string)
    (attachments : list attachment) (sms_phone sms_body : option string) :
  send_agreement self to subject body attachments
    (Some 1%Z) None sms_phone sms_body []
  = (Raise TypeError, [])
  /\ forall code description,
       TypeError <> MailCertificadoException code description.
Proof. split; [reflexivity | discriminate]. Qed.
End SendAgreementProperties.

(** ** Runs of the model *)

Example valid_mobile_prefixed : valid_mobile (Some "+34712345678") = Ok true.
Proof. reflexivity. Qed.

Example valid_mobile_12345 : valid_mobile (Some "12345") = Ok false.
Proof. reflexivity. Qed.

(** [$] accepts a final newline, which the nine-character slice never
    leaves after nine digits. *)
Example re_match_final_newline :
  re_match mobile_re ("612345678" ++ String "010" EmptyString) = true
  /\ valid_mobile (Some ("612345678" ++ String "010" EmptyString)) = Ok false.
Proof. by split. Qed.

Example estimate_size_12345 : estimate_size "12345" = 3%Z.
Proof. reflexivity. Qed.

(** Past the range of [float_mul_0_75_exact] the product is rounded: a
    length of 2^53 + 3 is converted to 2^53 + 4. *)
Example float_mul_0_75_rounds :
  int_of_float (float_mul (float_of_int (2 ^ 53 + 3)) float_0_75)
  = 6755399441055747%Z
  /\ (3 * (2 ^ 53 + 3) / 4 = 6755399441055746)%Z.
Proof. by vm_compute. Qed.

Example build_attachments_mixed :
  @build_attachments sample_externals [report_pdf; notes_txt] false
  = Ok [ {| attach_name := "report.pdf"; attach_type := "application/pdf";
            attach_size := 9; attach_data := "JVBERi0xLjQ=" |};
         {| attach_name := "notes.txt"; attach_type := "text/plain";
            attach_size := 6; attach_data := "aGVsbG8=" |} ].
Proof. reflexivity. Qed.

(** On the sample store the call without [merge] returns a new list of
    three new dicts and leaves the argument list, with its repeated
    reference, as it was; three iterations need a budget above three. *)
Example build_attachments_h_sample :
  match @build_attachments_h sample_externals 4 1%positive false sample_store with
  | Some (r, h') =>
      r = Ok 4%positive
      /\ h' !! 1%positive = Some (OList [2; 2; 3]%positive)
      /\ h' !! 4%positive = Some (OList [5; 6; 7]%positive)
      /\ holds_built h' 5%positive
           {| attach_name := "report.pdf"; attach_type := "application/pdf";
              attach_size := 9; attach_data := "JVBERi0xLjQ=" |}
  | None => False
  end
  /\ @build_attachments_h sample_externals 3 1%positive false sample_store = None.
Proof. by vm_compute. Qed.

Example send_agreement_sample :
  @send_agreement sample_externals sample_remote (init "user" "secret" true)
    "to@example.org" "subject" "body" [report_pdf]
    (Some 1%Z) (Some "612345678") None None []
  = (Ok "message-1",
     [ Connect "https://ws.codicert.tk/soap.php?wsdl";
       Call "sendAgreementWS"
         {| userData := ("user", "secret"); to := "to@example.org";
            subject := "subject"; body := "body";
            attachments :=
              [ {| attach_name := "report.pdf"; attach_type := "application/pdf";
                   attach_size := 9; attach_data := "JVBERi0xLjQ=" |} ];
            sms := None;
            acceptance := Some (1%Z, Some "612345678") |} ]).
Proof. reflexivity. Qed.

(** ** The properties on the sample inputs *)

Lemma valid_mobile_short_witness :
  (String.length "12345" < 9)%nat /\ valid_mobile (Some "12345") = Ok false.
Proof.
  split; [simpl; lia|].
  apply (proj1 (proj2 (proj1 valid_mobile_iff_suffix_matches "12345"))).
  simpl. lia.
Defined.

Lemma merges_pdfs_witness :
  exists first,
    head [report_pdf; annex_pdf] = Some first
    /\ @build_attachments sample_externals [report_pdf; annex_pdf] true
       = Ok [ {| attach_name := name first;
                 attach_type := "application/pdf";
                 attach_size := 18;
                 attach_data := "JVBERi0xLjQ=JVBERi0xLjc=" |} ].
Proof.
  apply (@build_attachments_merges_pdfs sample_externals
           [report_pdf; annex_pdf]
           [list_byte_of_string "JVBERi0xLjQ="; list_byte_of_string "JVBERi0xLjc="]
           (list_byte_of_string "JVBERi0xLjQ=JVBERi0xLjc=")).
  - simpl. lia.
  - repeat constructor.
  - reflexivity.
  - reflexivity.
Defined.

Lemma merge_requires_pdfs_witness :
  @build_attachments sample_externals [report_pdf; notes_txt] true
  = Raise (local_error merge_error_message)
  /\ is_raise (@build_attachments sample_externals [report_pdf; notes_txt] false)
     = false.
Proof.
  split; [|reflexivity].
  apply (@build_attachments_merge_requires_pdfs sample_externals
           [report_pdf; notes_txt]).
  - simpl. lia.
  - intros Heq.
    assert (Some "text/plain" ∈ @inferred_types sample_externals [report_pdf; notes_txt])
      as Hin by (apply elem_of_list_to_set; right; left).
    rewrite Heq in Hin. by apply elem_of_singleton in Hin.
Defined.

Lemma size_estimate_witness :
  attach_size {| attach_name := "notes.txt"; attach_type := "text/plain";
                 attach_size := 6; attach_data := "aGVsbG8=" |}
  = floor_0_75 8.
Proof.
  apply (@build_attachments_size_estimate sample_externals
           [report_pdf; notes_txt] false
           [ {| attach_name := "report.pdf"; attach_type := "application/pdf";
                attach_size := 9; attach_data := "JVBERi0xLjQ=" |};
             {| attach_name := "notes.txt"; attach_type := "text/plain";
                attach_size := 6; attach_data := "aGVsbG8=" |} ]).
  - reflexivity.
  - right. left.
  - reflexivity.
Defined.

Lemma unknown_type_witness :
  exists a,
    @first_unknown sample_externals [report_pdf; blob_unknownext; readme_bare] = Some a
    /\ a ∈ [report_pdf; blob_unknownext; readme_bare]
    /\ @inferred_type sample_externals a = None
    /\ @build_attachments sample_externals
         [report_pdf; blob_unknownext; readme_bare] false
       = Raise (local_error ("Cannot guess mime type for " ++ name a))
    /\ forall out,
         @build_attachments sample_externals
           [report_pdf; blob_unknownext; readme_bare] false <> Ok out.
Proof.
  apply (@build_attachments_unknown_type sample_externals
           [report_pdf; blob_unknownext; readme_bare] false
           [report_pdf; blob_unknownext; readme_bare]).
  - reflexivity.
  - exists readme_bare. split; [right; right; left | reflexivity].
Defined.

Lemma order_and_length_witness :
  exists atts',
    @merged_or_original sample_externals [report_pdf; notes_txt] false = Ok atts'
    /\ ["report.pdf"; "notes.txt"] = name <$> atts'
    /\ ["JVBERi0xLjQ="; "aGVsbG8="] = data <$> atts'
    /\ atts' = [report_pdf; notes_txt] /\ 2%nat = 2%nat.
Proof.
  apply (proj1 (@build_attachments_order_and_length sample_externals)
           [report_pdf; notes_txt] false
           [ {| attach_name := "report.pdf"; attach_type := "application/pdf";
                attach_size := 9; attach_data := "JVBERi0xLjQ=" |};
             {| attach_name := "notes.txt"; attach_type := "text/plain";
                attach_size := 6; attach_data := "aGVsbG8=" |} ]).
  reflexivity.
Defined.

Lemma single_merge_noop_witness :
  @build_attachments sample_externals [blob_unknownext] true
  = @build_attachments sample_externals [blob_unknownext] false.
Proof.
  apply (@build_attachments_single_merge_noop sample_externals [blob_unknownext]).
  reflexivity.
Defined.

Lemma merge_check_first_witness :
  @inferred_types sample_externals [blob_unknownext; readme_bare] = {[ None ]}
  /\ @build_attachments sample_externals [blob_unknownext; readme_bare] true
     = Raise (local_error merge_error_message)
  /\ forall attach_name,
       @build_attachments sample_externals [blob_unknownext; readme_bare] true
       <> Raise (local_error (guess_error_message attach_name)).
Proof.
  apply (@build_attachments_merge_check_first sample_externals
           [blob_unknownext; readme_bare]).
  - simpl. lia.
  - repeat constructor.
Defined.

Lemma sample_store_closed : closed sample_store.
Proof.
  intros l items Hl x Hx. unfold sample_store in Hl.
  apply lookup_insert_Some in Hl as [[<- Heq]|[_ Hl]].
  - injection Heq as <-.
    repeat (apply elem_of_cons in Hx as [->|Hx]; [by eexists|]).
    by apply elem_of_nil in Hx.
  - apply lookup_insert_Some in Hl as [[_ Heq]|[_ Hl]]; [done|].
    by apply lookup_singleton_Some in Hl as [_ Heq].
Qed.

Lemma leaves_arguments_witness :
  exists r h',
    @build_attachments_h sample_externals 4 1%positive true sample_store
    = Some (r, h')
    /\ (forall l x, sample_store !! l = Some x -> h' !! l = Some x)
    /\ forall build, r = Ok build ->
         sample_store !! build = None
         /\ exists items,
              h' !! build = Some (OList items)
              /\ Forall (fun x => sample_store !! x = None
                                  /\ exists fields, h' !! x = Some (ODict fields))
                        items.
Proof.
  apply (@build_attachments_leaves_arguments sample_externals sample_store
           1%positive (OList [2; 2; 3]%positive) true 4).
  - exact sample_store_closed.
  - reflexivity.
  - simpl. lia.
  - lia.
Defined.

(** * Further properties *)

(** ** More on phone validation *)

Lemma substring_append_skip (prefix s : string) (k n : nat) :
  substring (String.length prefix + k) n (prefix ++ s) = substring k n s.
Proof. induction prefix as [|a prefix IH]; [done | exact IH]. Qed.

Lemma last_nine_append (prefix s : string) :
  (9 <= String.length s)%nat -> last_nine (prefix ++ s) = last_nine s.
Proof.
  intros Hlen. unfold last_nine. rewrite length_append.
  replace (String.length prefix + String.length s - 9)%nat
    with (String.length prefix + (String.length s - 9))%nat by lia.
  apply substring_append_skip.
Qed.

(** X1: whatever precedes the last nine characters is ignored. *)
Theorem valid_mobile_ignores_prefix (prefix s : string) :
  (9 <= String.length s)%nat ->
  valid_mobile (Some (prefix ++ s)) = valid_mobile (Some s).
Proof.
  intros Hlen. unfold valid_mobile, valid_mobile_str.
  by rewrite !slice_from_last_nine, last_nine_append.
Qed.

Section MoreBuildAttachments.
Context `{Externals}.

Lemma build_loop_acc (atts : list attachment) :
  forall build : list attach_dict,
    build_loop atts build
    = (out ← build_loop atts []; Ok (build ++ out)%list).
Proof.
  induction atts as [|a atts IH]; intros build; simpl.
  - by rewrite app_nil_r.
  - destruct (build_one a) as [d|e]; simpl; [|done].
    rewrite (IH (build ++ [d])%list), (IH [d]).
    destruct (build_loop atts []) as [out|e]; simpl; [|done].
    by rewrite <- app_assoc.
Qed.

Lemma build_loop_app (atts1 atts2 : list attachment) :
  forall build : list attach_dict,
    build_loop (atts1 ++ atts2) build
    = (out ← build_loop atts1 build; build_loop atts2 out).
Proof.
  induction atts1 as [|a atts1 IH]; intros build; simpl; [done|].
  destruct (build_one a) as [d|e]; simpl; [apply IH | done].
Qed.

(** X2: without [merge], building a concatenation is building the parts in
    turn: the records of the first part followed by those of the second,
    or the first error met. *)
Theorem build_attachments_app (atts1 atts2 : list attachment) :
  build_attachments (atts1 ++ atts2) false
  = (out1 ← build_attachments atts1 false;
     out2 ← build_attachments atts2 false;
     Ok (out1 ++ out2)%list).
Proof.
  unfold build_attachments, merged_or_original. rewrite !merge_branch_false.
  simpl. rewrite build_loop_app.
  destruct (build_loop atts1 []) as [out1|e]; simpl; [|done].
  apply build_loop_acc.
Qed.

(** X3: the type of every record of a successful call is the type guessed
    from the record's own name. *)
Theorem build_attachments_type
    (atts : list attachment) (merge : bool) (out : list attach_dict)
    (d : attach_dict) :
  build_attachments atts merge = Ok out ->
  d ∈ out ->
  fst (guess_type (attach_name d)) = Some (attach_type d).
Proof.
  intros Hbuild Hd.
  apply build_attachments_Ok in Hbuild as (atts' & _ & Hall).
  apply list_elem_of_lookup in Hd as [i Hi].
  destruct (Forall2_lookup_r _ _ _ _ _ Hall Hi) as (a & _ & Ha).
  by apply build_one_Ok in Ha as (t & Ht & ->).
Qed.

(** X4: without [merge] the call succeeds exactly when the type of every
    name can be guessed. *)
Theorem build_attachments_succeeds_iff (atts : list attachment) :
  (exists out, build_attachments atts false = Ok out)
  <-> Forall (fun a => inferred_type a <> None) atts.
Proof.
  unfold build_attachments, merged_or_original. rewrite merge_branch_false.
  simpl. split.
  - intros [out Hout]. apply build_loop_Ok in Hout as (ds & _ & Hall).
    clear out. induction Hall as [|a d atts ds Hone _ IH]; constructor; [|done].
    apply build_one_Ok in Hone as (t & -> & _). done.
  - induction 1 as [|a atts Ha _ [out IH]]; [by exists []|].
    simpl. destruct (inferred_type a) as [t|] eqn:Ht; [|done].
    assert (exists d, build_one a = Ok d) as [d ->]
      by (eexists; apply build_one_Ok; eauto).
    simpl. rewrite build_loop_acc, IH. by eexists.
Qed.

Lemma append_all_Ok (atts : list attachment) :
  forall merger merger' : pdf_merger,
    append_all merger atts = Ok merger' ->
    exists streams,
      decode_all atts = Ok streams
      /\ foldl (fun acc stream => m ← acc; merger_append m stream)
               (Ok merger) streams = Ok merger'.
Proof.
  unfold decode_all.
  induction atts as [|a atts IH]; intros merger merger'; simpl.
  - intros [= <-]. by exists [].
  - destruct (b64decode (data a)) as [x|e]; simpl; [|done].
    destruct (merger_append merger x) as [m1|e] eqn:Hm1; simpl; [|done].
    intros Hrest. destruct (IH _ _ Hrest) as (streams & -> & Hfold).
    exists (x :: streams). split; [done|]. simpl. by rewrite Hm1.
Qed.

(** X5: with [merge] set and at least two attachments, a call that
    returns had only names guessed as application/pdf, payloads that all
    decode and a merge that the library accepted. *)
Theorem build_attachments_merge_succeeded
    (atts : list attachment) (out : list attach_dict) :
  (2 <= length atts)%nat ->
  build_attachments atts true = Ok out ->
  Forall (fun a => inferred_type a = pdf) atts
  /\ exists streams merged,
       decode_all atts = Ok streams
       /\ mergePdfPages streams = Ok merged
       /\ attach_data <$> out = [b64encode merged].
Proof.
  intros Hlen Hbuild. unfold build_attachments, merged_or_original in Hbuild.
  assert (merge_branch atts true = true) as Hbranch
    by (apply merge_branch_true; lia).
  rewrite Hbranch in Hbuild. unfold merge_attachments in Hbuild.
  destruct (all_pdfs (attach_types atts)) eqn:Hpdf; [|done].
  apply all_pdfs_true in Hpdf as [_ Hset].
  apply singleton_set_Forall in Hset. rewrite attach_types_inferred in Hset.
  apply Forall_fmap in Hset. split; [exact Hset|].
  destruct atts as [|first rest]; [done|].
  destruct (append_all PdfFileMerger (first :: rest)) as [merger|e] eqn:Happ;
    [|done].
  destruct (append_all_Ok _ _ _ Happ) as (streams & Hdec & Hfold).
  simpl in Hbuild.
  destruct (merger_write merger) as [merge_file|e] eqn:Hwrite; [|done].
  simpl in Hbuild. exists streams, merge_file. split; [done|]. split.
  - unfold mergePdfPages. rewrite Hfold. simpl. exact Hwrite.
  - destruct (build_one _) as [d|e] eqn:Hone; [|done]. simpl in Hbuild.
    injection Hbuild as <-. by apply build_one_Ok in Hone as (t & _ & ->).
Qed.
End MoreBuildAttachments.

(** ** The remote methods *)




Lemma valid_mobile_str_pattern (s : string) :
  valid_mobile_str s = true <-> mobile_pattern (last_nine s).
Proof.
  unfold valid_mobile_str. rewrite slice_from_last_nine.
  apply re_match_mobile_re. rewrite length_last_nine. lia.
Qed.

Lemma remove_spaces_no_space (s : string) :
  Forall (fun c => c <> " "%char)
         (list_ascii_of_string (Gateway.remove_spaces s)).
Proof.
  induction s as [|a s IH]; simpl; [constructor|].
  destruct (Ascii.eqb a " ") eqn:Ha; [done|].
  simpl. constructor; [|done]. by apply Ascii.eqb_neq.
Qed.

Lemma truthy_Some (v : option string) :
  truthy v = true <-> exists s, v = Some s /\ s <> EmptyString.
Proof.
  destruct v as [s|]; simpl.
  - rewrite negb_true_iff, String.eqb_neq. split; [eauto|].
    by intros (? & [= <-] & ?).
  - split; [done | by intros (? & ? & _)].
Qed.

Section GatewayProperties.
Context `{Externals} `{Gateway.Service} `{Gateway.PhoneNumbers}.
Import Gateway.


Lemma guarded_run {A B} (operation : string) (data : gmap string field)
    (answer : result (option A)) (f : A -> B) (nothing : exn)
    (log : list call) :
  try_except
    (res ← service operation data answer;
     match res with
     | Some a => mret (f a)
     | None => local (Raise nothing)
     end) log
  = (translated answer f nothing, (log ++ [Requested operation data])%list).
Proof.
  unfold try_except, service, remote, translated.
  cbv [mbind Svc_bind mret Svc_ret local].
  by destruct answer as [[a|]|e].
Qed.

(** A method that opens the client and then runs [rest]. *)
Lemma connection_then {A} (self : MailCertificado) (rest : Svc A)
    (log : list call) :
  (connection self;; rest) log
  = match Client (url self) (location self) with
    | Ok _ => rest (log ++ [Opened (url self) (location self)])%list
    | Raise e => (Raise e, (log ++ [Opened (url self) (location self)])%list)
    end.
Proof.
  unfold connection, remote. cbv [mbind Svc_bind].
  by destruct (Client (url self) (location self)).
Qed.

Lemma check_credit_run (self : MailCertificado) (log : list call) :
  Client (url self) (location self) = Ok tt ->
  check_credit self log
  = (translated (getUserCreditWS {[ "userData" := userData self ]})
       (fun answer => answer) AttributeError,
     (log ++ [Opened (url self) (location self);
              Requested "getUserCreditWS" {[ "userData" := userData self ]}])%list).
Proof.
  intros Hopen. unfold check_credit. rewrite connection_then, Hopen.
  etrans; [exact (guarded_run _ _ _ _ _ _)|]. by rewrite <- app_assoc.
Qed.

Lemma check_status_run (self : MailCertificado) (message_id : string)
    (log : list call) :
  Client (url self) (location self) = Ok tt ->
  let data : gmap string field :=
    {[ "userData" := userData self; "messageId" := FStr message_id ]} in
  check_status self message_id log
  = (translated (getMsgStatusWS data)
       (fun answer => {| message_id := messageId answer;
                         transaction_id := transactionId answer;
                         status_of := status answer;
                         date_of := date answer |})
       AttributeError,
     (log ++ [Opened (url self) (location self);
              Requested "getMsgStatusWS" data])%list).
Proof.
  intros Hopen data. unfold check_status. rewrite connection_then, Hopen.
  etrans; [exact (guarded_run _ _ _ _ _ _)|]. by rewrite <- app_assoc.
Qed.

Lemma get_message_run (self : MailCertificado) (message_id : string)
    (log : list call) :
  Client (url self) (location self) = Ok tt ->
  let data : gmap string field :=
    {[ "userData" := userData self; "messageId" := FStr message_id ]} in
  get_message self message_id log
  = (translated (getMsgWS data)
       (fun answer => {| message_name := message_name answer;
                         message_data := message_data answer |})
       (exception (PStr "unkown")),
     (log ++ [Opened (url self) (location self);
              Requested "getMsgWS" data])%list).
Proof.
  intros Hopen data. unfold get_message. rewrite connection_then, Hopen.
  etrans; [exact (guarded_run _ _ _ _ _ _)|]. by rewrite <- app_assoc.
Qed.

Lemma get_message_certificate_run (self : MailCertificado)
    (message_id cert_type : string) (log : list call) :
  Client (url self) (location self) = Ok tt ->
  let data : gmap string field :=
    {[ "userData" := userData self; "messageId" := FStr message_id;
       "type" := FStr cert_type ]} in
  get_message_certificate self message_id cert_type log
  = (translated (getMsgCertificateWS data)
       (fun answer => {| message_name := message_name answer;
                         message_data := message_data answer |})
       (exception (PStr "unkown")),
     (log ++ [Opened (url self) (location self);
              Requested "getMsgCertificateWS" data])%list).
Proof.
  intros Hopen data. unfold get_message_certificate.
  rewrite connection_then, Hopen.
  etrans; [exact (guarded_run _ _ _ _ _ _)|]. by rewrite <- app_assoc.
Qed.

Lemma send_registered_sms_run (self : MailCertificado)
    (sms_phone sms_body : string) (log : list call) :
  Client (url self) (location self) = Ok tt ->
  let data : gmap string field :=
    {[ "userData" := userData self; "smsPhone" := FStr sms_phone;
       "smsBody" := FStr sms_body ]} in
  send_registered_sms self sms_phone sms_body log
  = (translated (sendSmsWS data) (fun messageId => messageId)
       (exception (PStr "unknown")),
     (log ++ [Opened (url self) (location self);
              Requested "sendSmsWS" data])%list).
Proof.
  intros Hopen data. unfold send_registered_sms.
  rewrite connection_then, Hopen.
  etrans; [exact (guarded_run _ _ _ _ _ _)|]. by rewrite <- app_assoc.
Qed.

(** X18: when the service answers nothing, [check_credit] and [check_status]
    fail on reading the answer, and the other methods raise their own
    unknown error, which the [except] clause wraps once more. *)
Theorem methods_when_service_answers_nothing
    (self : MailCertificado) (message_id cert_type sms_phone sms_body : string)
    (log : list call) :
  Client (url self) (location self) = Ok tt ->
  ((forall data, getUserCreditWS data = Ok None) ->
   fst (check_credit self log)
   = Raise (MailCertificadoException (PInt 0) (PExc AttributeError)))
  /\ ((forall data, getMsgStatusWS data = Ok None) ->
      fst (check_status self message_id log)
      = Raise (MailCertificadoException (PInt 0) (PExc AttributeError)))
  /\ ((forall data, getMsgWS data = Ok None) ->
      fst (get_message self message_id log)
      = Raise (MailCertificadoException (PInt 0)
                 (PExc (MailCertificadoException (PInt 0) (PStr "unkown")))))
  /\ ((forall data, getMsgCertificateWS data = Ok None) ->
      fst (get_message_certificate self message_id cert_type log)
      = Raise (MailCertificadoException (PInt 0)
                 (PExc (MailCertificadoException (PInt 0) (PStr "unkown")))))
  /\ ((forall data, sendSmsWS data = Ok None) ->
      fst (send_registered_sms self sms_phone sms_body log)
      = Raise (MailCertificadoException (PInt 0)
                 (PExc (MailCertificadoException (PInt 0)
                          (PStr "Unknown error"))))).
Proof.
  intros Hopen. repeat split; intros Hnone.
  - by rewrite check_credit_run, Hnone.
  - by rewrite check_status_run, Hnone.
  - by rewrite get_message_run, Hnone.
  - by rewrite get_message_certificate_run, Hnone.
  - by rewrite send_registered_sms_run, Hnone.
Qed.


Lemma requests_app (log log' : list call) :
  requests (log ++ log') = (requests log ++ requests log')%list.
Proof. unfold requests. apply omap_app. Qed.

(** *** [send_mail] *)

Lemma send_mail_run (self : MailCertificado) (to subject body : string)
    (atts : list attachment) (sms_phone sms_body : option string)
    (log : list call) :
  let opened := (log ++ [Opened (url self) (location self)])%list in
  let phone := remove_spaces (format_s sms_phone) in
  send_mail self to subject body atts sms_phone sms_body log
  = match Client (url self) (location self) with
    | Raise e => (Raise e, opened)
    | Ok _ =>
        match build_attachments atts true with
        | Raise e => (Raise e, opened)
        | Ok built =>
            let data : gmap string field :=
              {[ "userData" := userData self; "to" := FStr to;
                 "subject" := FStr subject; "body" := FStr body;
                 "attachments" := FAttachments built ]} in
            match sms_wanted phone sms_body with
            | Raise e => (Raise e, opened)
            | Ok wanted =>
                let data :=
                  if wanted
                  then <["smsPhone" := FStr phone]>
                         (<["smsBody" := FStr (format_s sms_body)]> data)
                  else data in
                (translated (sendMailWS data) join_commas
                   (exception (PStr "unknown")),
                 (opened ++ [Requested "sendMailWS" data])%list)
            end
        end
    end.
Proof.
  intros opened phone. unfold send_mail. rewrite connection_then.
  destruct (Client (url self) (location self)) as [[]|e]; [|done].
  fold opened. cbv [mbind Svc_bind local] .
  destruct (build_attachments atts true) as [built|e]; [|done].
  fold phone. destruct (sms_wanted phone sms_body) as [wanted|e]; [|done].
  exact (guarded_run _ _ _ _ _ _).
Qed.

(** When the SMS keys are wanted, every test of the condition held. *)
Lemma sms_wanted_true (phone : string) (sms_body : option string) :
  sms_wanted phone sms_body = Ok true ->
  truthy sms_body = true
  /\ (8 < String.length phone)%nat
  /\ (exists number, parse phone "ES" = Ok number
                     /\ is_valid_number number = true)
  /\ valid_mobile_str phone = true.
Proof.
  unfold sms_wanted.
  destruct (negb (String.eqb phone EmptyString)); simpl; [|done].
  destruct (truthy sms_body); simpl; [|done].
  destruct (8 <? String.length phone)%nat eqn:Hlen; [|done].
  apply Nat.ltb_lt in Hlen.
  destruct (parse phone "ES") as [number|e]; simpl; [|done].
  intros [= Hand]. apply andb_true_iff in Hand as [Hvalid Hmobile]. eauto 10.
Qed.

(** X14: whatever [send_mail] requests from the service is one call of
    [sendMailWS] for the recipient given, with the built attachments; the
    SMS keys appear in it only for a number that, stripped of spaces, is
    longer than eight characters, is accepted by the phone-number library
    and ends in nine characters that form a mobile number, and only with a
    non-empty text. *)
Theorem send_mail_requests
    (self : MailCertificado) (to subject body : string)
    (atts : list attachment) (sms_phone sms_body : option string)
    (operation : string) (data : gmap string field) :
  (operation, data)
    ∈ requests (snd (send_mail self to subject body atts sms_phone sms_body [])) ->
  operation = "sendMailWS"
  /\ data !! "to" = Some (FStr to)
  /\ (exists built, build_attachments atts true = Ok built
                    /\ data !! "attachments" = Some (FAttachments built))
  /\ forall value, data !! "smsPhone" = Some value ->
       exists phone text number,
         value = FStr phone
         /\ phone = remove_spaces (format_s sms_phone)
         /\ Forall (fun c => c <> " "%char) (list_ascii_of_string phone)
         /\ (8 < String.length phone)%nat
         /\ parse phone "ES" = Ok number /\ is_valid_number number = true
         /\ mobile_pattern (last_nine phone)
         /\ sms_body = Some text /\ text <> EmptyString
         /\ data !! "smsBody" = Some (FStr text).
Proof.
  rewrite send_mail_run. simpl app.
  destruct (Client (url self) (location self)) as [[]|e];
    [|by intros ?%elem_of_nil].
  destruct (build_attachments atts true) as [built|e];
    [|by intros ?%elem_of_nil].
  set (phone := remove_spaces (format_s sms_phone)).
  destruct (sms_wanted phone sms_body) as [wanted|e] eqn:Hwanted;
    [|by intros ?%elem_of_nil].
  cbn [snd requests omap]. intros Hin.
  apply list_elem_of_singleton in Hin. injection Hin as -> ->.
  split; [done|]. destruct wanted.
  - apply sms_wanted_true in Hwanted
      as (Hbody & Hlen & (number & Hparse & Hvalid) & Hmobile).
    apply truthy_Some in Hbody as (text & -> & Htext).
    split; [done|]. split; [by exists built|].
    intros value. rewrite lookup_insert_eq. intros [= <-].
    exists phone, text, number. repeat split; try done.
    + apply remove_spaces_no_space.
    + by apply valid_mobile_str_pattern.
  - split; [done|]. split; [by exists built|]. intros value Hvalue. done.
Qed.

(** X15: a number that the phone-number library cannot parse is not
    reported by the exception of the library: [send_mail] raises the
    exception of the parser unchanged, after the client was opened and
    the attachments built, and nothing is sent. *)
Theorem send_mail_parser_error
    (self : MailCertificado) (to subject body : string)
    (atts : list attachment) (sms_phone sms_body : option string)
    (built : list attach_dict) (e : exn) (log : list call) :
  Client (url self) (location self) = Ok tt ->
  build_attachments atts true = Ok built ->
  truthy sms_body = true ->
  (8 < String.length (remove_spaces (format_s sms_phone)))%nat ->
  parse (remove_spaces (format_s sms_phone)) "ES" = Raise e ->
  send_mail self to subject body atts sms_phone sms_body log
  = (Raise e, (log ++ [Opened (url self) (location self)])%list).
Proof.
  intros Hopen Hbuilt Hbody Hlen Hparse.
  rewrite send_mail_run, Hopen, Hbuilt. cbv zeta.
  set (phone := remove_spaces (format_s sms_phone)) in *.
  assert (sms_wanted phone sms_body = Raise e) as ->; [|done].
  unfold sms_wanted. rewrite Hbody, Hparse.
  apply Nat.ltb_lt in Hlen as Hltb. rewrite Hltb.
  destruct phone; [simpl in Hlen; lia | done].
Qed.

(** *** [send_agreement_sms] *)

Lemma slice_from_idempotent (s : string) :
  slice_from (-9) (slice_from (-9) s) = slice_from (-9) s.
Proof.
  rewrite !slice_from_last_nine. unfold last_nine at 1.
  rewrite length_last_nine.
  replace (Nat.min 9 (String.length s) - 9)%nat with 0%nat by lia.
  rewrite <- (substring_to_end (last_nine s) 0 (String.length (last_nine s)) 9);
    [|lia|rewrite length_last_nine; lia].
  clear. induction (last_nine s) as [|a t IH]; simpl; [done | by rewrite IH].
Qed.

Lemma valid_mobile_str_slice (s : string) :
  valid_mobile_str (slice_from (-9) s) = valid_mobile_str s.
Proof. unfold valid_mobile_str. by rewrite slice_from_idempotent. Qed.

Lemma send_agreement_sms_run (self : MailCertificado) (to : option string)
    (subject body : string) (atts : list attachment) (log : list call) :
  let opened := (log ++ [Opened (url self) (location self)])%list in
  let to' := if truthy to then Some (slice_from (-9) (format_s to)) else to in
  send_agreement_sms self to subject body atts log
  = match to' with
    | Some t =>
        if valid_mobile_str t then
          match Client (url self) (location self) with
          | Raise e => (Raise e, opened)
          | Ok _ =>
              match build_attachments atts true with
              | Raise e => (Raise e, opened)
              | Ok built =>
                  let data : gmap string field :=
                    {[ "userData" := userData self;
                       "agreementSms" := FInt 1;
                       "forwardOnError" := FInt 1;
                       "to" := FStr t;
                       "subject" := FStr subject;
                       "body" := FStr body;
                       "attachments" := FAttachments built ]} in
                  (translated (sendAgreementWS data) (fun messageId => messageId)
                     (exception (PStr "unkown")),
                   (opened ++ [Requested "sendAgreementWS" data])%list)
              end
          end
        else
          (Raise (local_error ("Mobile phone " ++ t
                               ++ " do not seem to be a valid number")), log)
    | None =>
        match Client (url self) (location self) with
        | Raise e => (Raise e, opened)
        | Ok _ =>
            match build_attachments atts true with
            | Raise e => (Raise e, opened)
            | Ok built =>
                let data : gmap string field :=
                  {[ "userData" := userData self;
                     "agreementSms" := FInt 1;
                     "forwardOnError" := FInt 1;
                     "to" := FNone;
                     "subject" := FStr subject;
                     "body" := FStr body;
                     "attachments" := FAttachments built ]} in
                (translated (sendAgreementWS data) (fun messageId => messageId)
                   (exception (PStr "unkown")),
                 (opened ++ [Requested "sendAgreementWS" data])%list)
            end
        end
    end.
Proof.
  intros opened to'. unfold send_agreement_sms. fold to'.
  destruct to' as [t|]; simpl valid_mobile.
  - unfold connection, remote. cbv [mbind Svc_bind result_bind local].
    simpl format_s. destruct (valid_mobile_str t); simpl negb; cbv iota; [|done].
    destruct (Client (url self) (location self)) as [[]|e]; [|done].
    destruct (build_attachments atts true) as [built|e]; [|done].
    exact (guarded_run _ _ _ _ _ _).
  - unfold connection, remote. cbv [mbind Svc_bind result_bind local].
    destruct (Client (url self) (location self)) as [[]|e]; [|done].
    destruct (build_attachments atts true) as [built|e]; [|done].
    exact (guarded_run _ _ _ _ _ _).
Qed.

(** X12: [send_agreement_sms] keeps the last nine characters of the
    recipient; when they do not form a mobile number it raises the local
    error, which names those nine characters, before the client is
    opened. *)
Theorem send_agreement_sms_rejects_recipient
    (self : MailCertificado) (to subject body : string)
    (atts : list attachment) (log : list call) :
  ~ mobile_pattern (last_nine to) ->
  send_agreement_sms self (Some to) subject body atts log
  = (Raise (local_error ("Mobile phone " ++ last_nine to
                         ++ " do not seem to be a valid number")), log).
Proof.
  intros Hno. rewrite send_agreement_sms_run.
  assert (Hinvalid : valid_mobile_str to = false).
  { destruct (valid_mobile_str to) eqn:Hv; [|done].
    by apply valid_mobile_str_pattern in Hv. }
  simpl truthy. destruct (String.eqb_spec to EmptyString) as [->|Hne].
  - reflexivity.
  - simpl negb. cbv iota. simpl format_s.
    by rewrite valid_mobile_str_slice, Hinvalid, slice_from_last_nine.
Qed.

(** X13: whatever [send_agreement_sms] requests from the service is one
    call of [sendAgreementWS] flagged as an SMS agreement with forwarding
    on error, with the built attachments, whose recipient is [None] when
    none was given and otherwise the last nine characters of the one
    given, which form a mobile number. *)
Theorem send_agreement_sms_requests
    (self : MailCertificado) (to : option string) (subject body : string)
    (atts : list attachment) (operation : string) (data : gmap string field) :
  (operation, data)
    ∈ requests (snd (send_agreement_sms self to subject body atts [])) ->
  operation = "sendAgreementWS"
  /\ data !! "agreementSms" = Some (FInt 1)
  /\ data !! "forwardOnError" = Some (FInt 1)
  /\ (exists built, build_attachments atts true = Ok built
                    /\ data !! "attachments" = Some (FAttachments built))
  /\ match to with
     | Some t =>
         data !! "to" = Some (FStr (last_nine t))
         /\ mobile_pattern (last_nine t)
     | None => data !! "to" = Some FNone
     end.
Proof.
  rewrite send_agreement_sms_run. simpl app.
  destruct to as [t|]; simpl truthy.
  - assert (Hcase :
        (if negb (String.eqb t EmptyString)
         then Some (slice_from (-9) (format_s (Some t))) else Some t)
        = Some (if negb (String.eqb t EmptyString) then last_nine t else t))
      by (destruct (negb (String.eqb t EmptyString));
          [by rewrite <- slice_from_last_nine | done]).
    rewrite Hcase. clear Hcase.
    set (t' := if negb (String.eqb t EmptyString) then last_nine t else t).
    destruct (valid_mobile_str t') eqn:Hvalid; [|by intros ?%elem_of_nil].
    assert (Ht' : t' = last_nine t /\ mobile_pattern (last_nine t)).
    { unfold t' in *. destruct (String.eqb_spec t EmptyString) as [->|Hne].
      - done.
      - simpl in *. split; [done|]. apply valid_mobile_str_pattern.
        by rewrite <- valid_mobile_str_slice, slice_from_last_nine. }
    destruct Ht' as [-> Hpattern].
    destruct (Client (url self) (location self)) as [[]|e];
      [|by intros ?%elem_of_nil].
    destruct (build_attachments atts true) as [built|e];
      [|by intros ?%elem_of_nil].
    cbn [snd requests omap]. intros Hin.
    apply list_elem_of_singleton in Hin. injection Hin as -> ->.
    repeat split; try done. by exists built.
  - destruct (Client (url self) (location self)) as [[]|e];
      [|by intros ?%elem_of_nil].
    destruct (build_attachments atts true) as [built|e];
      [|by intros ?%elem_of_nil].
    cbn [snd requests omap]. intros Hin.
    apply list_elem_of_singleton in Hin. injection Hin as -> ->.
    repeat split; try done. by exists built.
Qed.

(** *** All methods *)

Lemma carries_credentials_opened (self : MailCertificado) (u l : string) :
  carries_credentials self [Opened u l].
Proof. intros operation data Hin. by apply elem_of_nil in Hin. Qed.

Lemma carries_credentials_requested (self : MailCertificado) (u l : string)
    (operation : string) (data : gmap string field) :
  data !! "userData" = Some (userData self) ->
  carries_credentials self [Opened u l; Requested operation data].
Proof.
  intros Hdata operation' data' Hin. cbn [requests omap] in Hin.
  apply list_elem_of_singleton in Hin. by injection Hin as -> ->.
Qed.

(** X21: every request that a method sends to the service carries the
    credentials the object was built with. *)
Theorem requests_carry_credentials
    (self : MailCertificado)
    (message_id cert_type phone text to subject body : string)
    (atts : list attachment) (to_sms sms_phone sms_body : option string) :
  carries_credentials self (snd (check_credit self []))
  /\ carries_credentials self (snd (check_status self message_id []))
  /\ carries_credentials self (snd (get_message self message_id []))
  /\ carries_credentials self
       (snd (get_message_certificate self message_id cert_type []))
  /\ carries_credentials self (snd (send_registered_sms self phone text []))
  /\ carries_credentials self
       (snd (send_agreement_sms self to_sms subject body atts []))
  /\ carries_credentials self
       (snd (send_mail self to subject body atts sms_phone sms_body [])).
Proof.
  assert (Hnil : carries_credentials self [])
    by (intros ? ? Hin; by apply elem_of_nil in Hin).
  repeat split.
  - destruct (Client (url self) (location self)) as [[]|e] eqn:Hopen.
    + rewrite check_credit_run by done. by apply carries_credentials_requested.
    + unfold check_credit. rewrite connection_then, Hopen.
      apply carries_credentials_opened.
  - destruct (Client (url self) (location self)) as [[]|e] eqn:Hopen.
    + rewrite check_status_run by done. by apply carries_credentials_requested.
    + unfold check_status. rewrite connection_then, Hopen.
      apply carries_credentials_opened.
  - destruct (Client (url self) (location self)) as [[]|e] eqn:Hopen.
    + rewrite get_message_run by done. by apply carries_credentials_requested.
    + unfold get_message. rewrite connection_then, Hopen.
      apply carries_credentials_opened.
  - destruct (Client (url self) (location self)) as [[]|e] eqn:Hopen.
    + rewrite get_message_certificate_run by done.
      by apply carries_credentials_requested.
    + unfold get_message_certificate. rewrite connection_then, Hopen.
      apply carries_credentials_opened.
  - destruct (Client (url self) (location self)) as [[]|e] eqn:Hopen.
    + rewrite send_registered_sms_run by done.
      by apply carries_credentials_requested.
    + unfold send_registered_sms. rewrite connection_then, Hopen.
      apply carries_credentials_opened.
  - rewrite send_agreement_sms_run. simpl app.
    destruct (if truthy to_sms then _ else _) as [t|].
    + destruct (valid_mobile_str t); [|done].
      destruct (Client (url self) (location self)) as [[]|e];
        [|apply carries_credentials_opened].
      destruct (build_attachments atts true) as [built|e];
        [|apply carries_credentials_opened].
      by apply carries_credentials_requested.
    + destruct (Client (url self) (location self)) as [[]|e];
        [|apply carries_credentials_opened].
      destruct (build_attachments atts true) as [built|e];
        [|apply carries_credentials_opened].
      by apply carries_credentials_requested.
  - rewrite send_mail_run. simpl app.
    destruct (Client (url self) (location self)) as [[]|e];
      [|apply carries_credentials_opened].
    destruct (build_attachments atts true) as [built|e];
      [|apply carries_credentials_opened].
    destruct (sms_wanted _ sms_body) as [[]|e];
      [| |apply carries_credentials_opened];
      by apply carries_credentials_requested.
Qed.

(** X20: a failure to open the client is not translated: the methods raise
    it as it is and request nothing. *)
Theorem methods_client_failure
    (self : MailCertificado)
    (message_id cert_type phone text to subject body : string)
    (atts : list attachment) (sms_phone sms_body : option string)
    (e : exn) (log : list call) :
  Client (url self) (location self) = Raise e ->
  let opened := (log ++ [Opened (url self) (location self)])%list in
  check_credit self log = (Raise e, opened)
  /\ check_status self message_id log = (Raise e, opened)
  /\ get_message self message_id log = (Raise e, opened)
  /\ get_message_certificate self message_id cert_type log = (Raise e, opened)
  /\ send_registered_sms self phone text log = (Raise e, opened)
  /\ send_mail self to subject body atts sms_phone sms_body log
     = (Raise e, opened).
Proof.
  intros Hopen opened. repeat split.
  - unfold check_credit. by rewrite connection_then, Hopen.
  - unfold check_status. by rewrite connection_then, Hopen.
  - unfold get_message. by rewrite connection_then, Hopen.
  - unfold get_message_certificate. by rewrite connection_then, Hopen.
  - unfold send_registered_sms. by rewrite connection_then, Hopen.
  - by rewrite send_mail_run, Hopen.
Qed.
End GatewayProperties.

Section SendMailParser.
Context `{Externals} `{Gateway.Service}.
Import Gateway.

(** X16: for a number that, after [str] and the removal of spaces, has at
    most eight characters (as the text of an absent number has), or with
    no SMS text, [send_mail] does not consult the phone-number library and
    sends no SMS key. *)
Theorem send_mail_without_sms
    (library library' : PhoneNumbers)
    (self : MailCertificado) (to subject body : string)
    (atts : list attachment) (sms_phone sms_body : option string)
    (log : list call) :
  (String.length (remove_spaces (format_s sms_phone)) <= 8)%nat
  \/ truthy sms_body = false ->
  @send_mail _ _ library self to subject body atts sms_phone sms_body log
  = @send_mail _ _ library' self to subject body atts sms_phone sms_body log
  /\ forall operation data,
       (operation, data)
         ∈ requests (snd (@send_mail _ _ library self to subject body atts
                            sms_phone sms_body [])) ->
       data !! "smsPhone" = None /\ data !! "smsBody" = None.
Proof.
  intros Hskip.
  assert (Hwanted : forall lib : PhoneNumbers,
             @sms_wanted lib (remove_spaces (format_s sms_phone)) sms_body
             = Ok false).
  { intros lib. unfold sms_wanted. destruct Hskip as [Hlen| ->].
    - apply Nat.leb_le in Hlen.
      assert ((8 <? String.length (remove_spaces (format_s sms_phone)))%nat
              = false) as -> by (apply Nat.ltb_ge; by apply Nat.leb_le).
      by rewrite andb_false_r.
    - by rewrite andb_false_r. }
  split.
  - rewrite !send_mail_run. cbv zeta. by rewrite !Hwanted.
  - intros operation data. rewrite send_mail_run. cbv zeta. rewrite Hwanted.
    simpl app.
    destruct (Client (url self) (location self)) as [[]|e];
      [|by intros ?%elem_of_nil].
    destruct (build_attachments atts true) as [built|e];
      [|by intros ?%elem_of_nil].
    cbn [snd requests omap]. intros Hin.
    apply list_elem_of_singleton in Hin. by injection Hin as -> ->.
Qed.
End SendMailParser.

(** ** More on [send_agreement] *)

Section MoreSendAgreement.
Context `{Externals} `{Remote}.

(** The request [send_agreement] builds. *)
Lemma send_agreement_run
    (self : MailCertificado) (to subject body : string)
    (atts : list attachment) (accept_method : option Z)
    (accept_phone sms_phone sms_body : option string) (log : list event) :
  let connected := (log ++ [Connect (url self)])%list in
  send_agreement self to subject body atts accept_method accept_phone
    sms_phone sms_body log
  = match previous_checks accept_method accept_phone sms_phone with
    | Raise e => (Raise e, log)
    | Ok _ =>
        match Client (url self) (location self) with
        | Raise e => (Raise e, connected)
        | Ok _ =>
            match build_attachments atts true with
            | Raise e => (Raise e, connected)
            | Ok built =>
                let data :=
                  {| userData := credentials self; to := to;
                     subject := subject; body := body; attachments := built;
                     sms := if truthy sms_phone && truthy sms_body
                            then Some (format_s sms_phone, format_s sms_body)
                            else None;
                     acceptance := if bool_decide (accept_method = Some 1%Z)
                                   then Some (1%Z, accept_phone) else None |} in
                (Gateway.translated (sendAgreementWS data)
                   (fun messageId => messageId) (exception (PStr "unkown")),
                 (connected ++ [Call "sendAgreementWS" data])%list)
            end
        end
    end.
Proof.
  intros connected. unfold send_agreement, local, remote, try_except.
  cbv [mbind IO_bind mret IO_ret].
  destruct (previous_checks accept_method accept_phone sms_phone) as [[]|e];
    [|done].
  destruct (Client (url self) (location self)) as [[]|e]; [|done].
  destruct (build_attachments atts true) as [built|e]; [|done].
  fold connected. unfold Gateway.translated.
  by destruct (sendAgreementWS _) as [[id|]|e].
Qed.

(** The checks pass exactly for a valid acceptance phone, when one is
    needed, and a valid SMS phone, when one is given. *)
Lemma previous_checks_Ok (accept_method : option Z)
    (accept_phone sms_phone : option string) :
  previous_checks accept_method accept_phone sms_phone = Ok tt <->
  (accept_method = Some 1%Z ->
   exists p, accept_phone = Some p /\ valid_mobile_str p = true)
  /\ (forall s, sms_phone = Some s -> valid_mobile_str s = true).
Proof.
  unfold previous_checks. case_bool_decide as Hmethod.
  - destruct accept_phone as [p|]; simpl.
    + destruct (valid_mobile_str p) eqn:Hp; simpl.
      * destruct sms_phone as [s|]; simpl.
        -- destruct (valid_mobile_str s) eqn:Hs; simpl.
           ++ split; [|done]. intros _. split; [eauto|]. by intros ? [= <-].
           ++ split; [done|]. intros [_ Hsms].
              specialize (Hsms s eq_refl). congruence.
        -- split; [|done]. intros _. split; [eauto | done].
      * split; [done|]. intros [Hacc _].
        destruct (Hacc Hmethod) as (? & [= <-] & ?). congruence.
    + split; [done|]. intros [Hacc _]. by destruct (Hacc Hmethod) as (? & ? & _).
  - simpl. destruct sms_phone as [s|]; simpl.
    + destruct (valid_mobile_str s) eqn:Hs; simpl.
      * split; [|done]. intros _. split; [done|]. by intros ? [= <-].
      * split; [done|]. intros [_ Hsms].
        specialize (Hsms s eq_refl). congruence.
    + split; [|done]. intros _. split; done.
Qed.

(** X8: an SMS phone that is not a mobile number stops [send_agreement]
    with the local error before anything remote, once the acceptance
    phone passed. *)
Theorem send_agreement_invalid_sms_phone
    (self : MailCertificado) (to subject body : string)
    (atts : list attachment) (accept_method : option Z)
    (accept_phone : option string) (sms_phone : string)
    (sms_body : option string) (log : list event) :
  (accept_method = Some 1%Z ->
   exists p, accept_phone = Some p /\ valid_mobile_str p = true) ->
  valid_mobile_str sms_phone = false ->
  send_agreement self to subject body atts accept_method accept_phone
    (Some sms_phone) sms_body log
  = (Raise (local_error ("Mobile phone " ++ sms_phone
                         ++ " do not seem to be a valid number")), log).
Proof.
  intros Haccept Hsms. rewrite send_agreement_run.
  assert (previous_checks accept_method accept_phone (Some sms_phone)
          = Raise (local_error ("Mobile phone " ++ sms_phone
                                ++ " do not seem to be a valid number")))
    as ->; [|done].
  unfold previous_checks. case_bool_decide as Hmethod.
  - destruct (Haccept Hmethod) as (p & -> & Hp). simpl. rewrite Hp. simpl.
    by rewrite Hsms.
  - simpl. by rewrite Hsms.
Qed.

(** X9: every call that [send_agreement] logs is a call of
    [sendAgreementWS]; its request holds the credentials, the built
    attachments, an acceptance phone that is a mobile number when the
    acceptance method is 1 and none otherwise, and SMS fields only for a
    phone that is a mobile number and a text that is not empty. *)
Theorem send_agreement_requests
    (self : MailCertificado) (to subject body : string)
    (atts : list attachment) (accept_method : option Z)
    (accept_phone sms_phone sms_body : option string)
    (operation : string) (data : agreement_data) :
  Call operation data
    ∈ snd (send_agreement self to subject body atts accept_method
             accept_phone sms_phone sms_body []) ->
  operation = "sendAgreementWS"
  /\ userData data = (user self, password self)
  /\ build_attachments atts true = Ok (attachments data)
  /\ match acceptance data with
     | Some (method, phone) =>
         accept_method = Some 1%Z /\ method = 1%Z /\ phone = accept_phone
         /\ exists p, accept_phone = Some p /\ mobile_pattern (last_nine p)
     | None => accept_method <> Some 1%Z
     end
  /\ match sms data with
     | Some (phone, text) =>
         sms_phone = Some phone /\ mobile_pattern (last_nine phone)
         /\ sms_body = Some text /\ text <> EmptyString
     | None => True
     end.
Proof.
  rewrite send_agreement_run. simpl app.
  destruct (previous_checks accept_method accept_phone sms_phone) as [[]|e]
    eqn:Hchecks; [|by intros ?%elem_of_nil].
  apply previous_checks_Ok in Hchecks as [Haccept Hsms].
  destruct (Client (url self) (location self)) as [[]|e].
  2: { intros Hin. apply list_elem_of_singleton in Hin. done. }
  destruct (build_attachments atts true) as [built|e].
  2: { intros Hin. apply list_elem_of_singleton in Hin. done. }
  cbn [snd]. intros Hin.
  apply elem_of_cons in Hin as [Hin|Hin]; [done|].
  apply list_elem_of_singleton in Hin. injection Hin as -> ->. cbn.
  split; [done|]. split; [done|]. split; [done|]. split.
  - case_bool_decide as Hmethod; [|done].
    destruct (Haccept Hmethod) as (p & -> & Hp).
    repeat split; try done. exists p. split; [done|].
    by apply valid_mobile_str_pattern.
  - destruct (truthy sms_phone && truthy sms_body) eqn:Hboth; [|done].
    apply andb_true_iff in Hboth as [Hphone Hbody].
    apply truthy_Some in Hphone as (phone & -> & _).
    apply truthy_Some in Hbody as (text & -> & Htext). simpl.
    repeat split; try done. apply valid_mobile_str_pattern. by apply Hsms.
Qed.


(** X11: the attachments are built after the client was opened, and
    [send_agreement] raises an exception of [build_attachments]
    unchanged, with nothing requested. *)
Theorem send_agreement_attachment_error
    (self : MailCertificado) (to subject body : string)
    (atts : list attachment) (accept_method : option Z)
    (accept_phone sms_phone sms_body : option string)
    (e : exn) (log : list event) :
  previous_checks accept_method accept_phone sms_phone = Ok tt ->
  Client (url self) (location self) = Ok tt ->
  build_attachments atts true = Raise e ->
  send_agreement self to subject body atts accept_method accept_phone
    sms_phone sms_body log
  = (Raise e, (log ++ [Connect (url self)])%list).
Proof.
  intros Hchecks Hopen Hbuild.
  by rewrite send_agreement_run, Hchecks, Hopen, Hbuild.
Qed.
End MoreSendAgreement.

(** ** The further properties on the sample inputs *)

Lemma ignores_prefix_witness :
  valid_mobile (Some ("0034 " ++ "612345678")) = valid_mobile (Some "612345678").
Proof. apply (valid_mobile_ignores_prefix "0034 " "612345678"). simpl. lia. Defined.

Lemma type_witness :
  fst (sample_guess_type "notes.txt") = Some "text/plain".
Proof.
  apply (@build_attachments_type sample_externals
           [report_pdf; notes_txt] false
           [ {| attach_name := "report.pdf"; attach_type := "application/pdf";
                attach_size := 9; attach_data := "JVBERi0xLjQ=" |};
             {| attach_name := "notes.txt"; attach_type := "text/plain";
                attach_size := 6; attach_data := "aGVsbG8=" |} ]
           {| attach_name := "notes.txt"; attach_type := "text/plain";
              attach_size := 6; attach_data := "aGVsbG8=" |}).
  - reflexivity.
  - right. left.
Defined.

Lemma merge_succeeded_witness :
  Forall (fun a => @inferred_type sample_externals a = pdf) [report_pdf; annex_pdf]
  /\ exists streams merged,
       @decode_all sample_externals [report_pdf; annex_pdf] = Ok streams
       /\ @mergePdfPages sample_externals streams = Ok merged
       /\ ["JVBERi0xLjQ=JVBERi0xLjc="] = [@b64encode sample_externals merged].
Proof.
  apply (@build_attachments_merge_succeeded sample_externals
           [report_pdf; annex_pdf]
           [ {| attach_name := "report.pdf"; attach_type := "application/pdf";
                attach_size := 18;
                attach_data := "JVBERi0xLjQ=JVBERi0xLjc=" |} ]).
  - simpl. lia.
  - reflexivity.
Defined.

Lemma sample_store_holds :
  holds_attachments sample_store 1%positive [report_pdf; report_pdf; annex_pdf].
Proof.
  exists [2; 2; 3]%positive. split; [reflexivity|].
  repeat constructor; eexists; (split; [reflexivity | split; reflexivity]).
Qed.

Lemma refines_witness :
  exists r h',
    @build_attachments_h sample_externals 4 1%positive false sample_store
    = Some (r, h')
    /\ exists build items,
         r = Ok build
         /\ h' !! build = Some (OList items)
         /\ Forall2 (holds_built h') items
              [ {| attach_name := "report.pdf"; attach_type := "application/pdf";
                   attach_size := 9; attach_data := "JVBERi0xLjQ=" |};
                {| attach_name := "report.pdf"; attach_type := "application/pdf";
                   attach_size := 9; attach_data := "JVBERi0xLjQ=" |};
                {| attach_name := "annex.pdf"; attach_type := "application/pdf";
                   attach_size := 9; attach_data := "JVBERi0xLjc=" |} ].
Proof.
  apply (@build_attachments_h_refines sample_externals sample_store 1%positive
           [report_pdf; report_pdf; annex_pdf] false 4).
  - exact sample_store_holds.
  - simpl. lia.
  - lia.
Defined.

Lemma invalid_phone_witness :
  @send_agreement sample_externals sample_remote Gateway.sample_self
    "to@example.org" "subject" "body" [report_pdf]
    (Some 1%Z) (Some "512345678") None None []
  = (Raise (local_error "Mobile phone 512345678 does not seem to be a valid number"),
     []).
Proof.
  apply (@send_agreement_invalid_phone sample_externals sample_remote
           Gateway.sample_self "to@example.org" "subject" "body" [report_pdf]
           "512345678" None None []).
  reflexivity.
Defined.

Lemma invalid_sms_phone_witness :
  @send_agreement sample_externals sample_remote Gateway.sample_self
    "to@example.org" "subject" "body" [report_pdf]
    None None (Some "12345") (Some "text") []
  = (Raise (local_error "Mobile phone 12345 do not seem to be a valid number"),
     []).
Proof.
  apply (@send_agreement_invalid_sms_phone sample_externals sample_remote
           Gateway.sample_self "to@example.org" "subject" "body" [report_pdf]
           None None "12345" (Some "text") []).
  - intros Hmethod. discriminate Hmethod.
  - reflexivity.
Defined.

Lemma agreement_requests_witness :
  mobile_pattern (last_nine "612345678")
  /\ mobile_pattern (last_nine "+34712345678").
Proof.
  destruct (@send_agreement_requests sample_externals sample_remote Gateway.sample_self
              "to@example.org" "subject" "body" [report_pdf]
              (Some 1%Z) (Some "612345678") (Some "+34712345678") (Some "text")
              "sendAgreementWS" sample_agreement_data)
    as (_ & _ & _ & Hacceptance & Hsms).
  - vm_compute. right. left.
  - destruct Hacceptance as (_ & _ & _ & p & [= <-] & Hp).
    destruct Hsms as (_ & Hphone & _). by split.
Defined.


Lemma attachment_error_witness :
  @send_agreement sample_externals sample_remote Gateway.sample_self
    "to@example.org" "subject" "body" [blob_unknownext]
    None None None None []
  = (Raise (local_error "Cannot guess mime type for x.unknownext"),
     [Connect "https://ws.codicert.tk/soap.php?wsdl"]).
Proof.
  apply (@send_agreement_attachment_error sample_externals sample_remote
           Gateway.sample_self "to@example.org" "subject" "body" [blob_unknownext]
           None None None None
           (local_error "Cannot guess mime type for x.unknownext") []);
    reflexivity.
Defined.

Lemma sms_rejects_recipient_witness :
  @Gateway.send_agreement_sms sample_externals Gateway.sample_service
    Gateway.sample_self (Some "+34 512345678") "subject" "body" [report_pdf] []
  = (Raise (local_error "Mobile phone 512345678 do not seem to be a valid number"),
     []).
Proof.
  apply (@send_agreement_sms_rejects_recipient sample_externals
           Gateway.sample_service Gateway.sample_self "+34 512345678" "subject" "body"
           [report_pdf] []).
  intros (c & rest & Heq & [Hc|Hc] & _); injection Heq as <- _; discriminate Hc.
Defined.

Lemma sms_requests_witness :
  sample_sms_agreement_request !! "to" = Some (Gateway.FStr (last_nine "+34612345678"))
  /\ mobile_pattern (last_nine "+34612345678").
Proof.
  destruct (@send_agreement_sms_requests sample_externals Gateway.sample_service
              Gateway.sample_self (Some "+34612345678") "subject" "body" [report_pdf]
              "sendAgreementWS" sample_sms_agreement_request)
    as (_ & _ & _ & _ & Hto).
  - vm_compute. left.
  - exact Hto.
Defined.

Lemma mail_requests_witness :
  exists phone text number,
    Gateway.FStr "+34612345678" = Gateway.FStr phone
    /\ phone = Gateway.remove_spaces (format_s (Some "+34 612 345 678"))
    /\ Forall (fun c => c <> " "%char) (list_ascii_of_string phone)
    /\ (8 < String.length phone)%nat
    /\ @Gateway.parse Gateway.sample_phone_numbers phone "ES" = Ok number
    /\ @Gateway.is_valid_number Gateway.sample_phone_numbers number = true
    /\ mobile_pattern (last_nine phone)
    /\ Some "text" = Some text /\ text <> EmptyString
    /\ sample_mail_request !! "smsBody" = Some (Gateway.FStr text).
Proof.
  destruct (@send_mail_requests sample_externals Gateway.sample_service
              Gateway.sample_phone_numbers Gateway.sample_self
              "to@example.org" "subject" "body" [report_pdf]
              (Some "+34 612 345 678") (Some "text")
              "sendMailWS" sample_mail_request)
    as (_ & _ & _ & Hsms).
  - vm_compute. left.
  - apply Hsms. reflexivity.
Defined.

Lemma mail_parser_error_witness :
  @Gateway.send_mail sample_externals Gateway.sample_service
    Gateway.sample_phone_numbers Gateway.sample_self
    "to@example.org" "subject" "body" [report_pdf]
    (Some "612 345 67x") (Some "text") []
  = (Raise (LibraryError "NumberParseException"),
     [Gateway.Opened "https://ws.codicert.tk/soap.php?wsdl"
        "https://ws.codicert.tk/soap.php"]).
Proof.
  apply (@send_mail_parser_error sample_externals Gateway.sample_service
           Gateway.sample_phone_numbers Gateway.sample_self
           "to@example.org" "subject" "body" [report_pdf]
           (Some "612 345 67x") (Some "text") sample_built
           (LibraryError "NumberParseException") []);
    try reflexivity.
  simpl. lia.
Defined.

Lemma mail_without_sms_witness :
  @Gateway.send_mail sample_externals Gateway.sample_service
    Gateway.sample_phone_numbers Gateway.sample_self
    "to@example.org" "subject" "body" [report_pdf] None (Some "text") []
  = @Gateway.send_mail sample_externals Gateway.sample_service
      {| Gateway.phone_number := unit;
         Gateway.parse := fun _ _ => Raise (LibraryError "NumberParseException");
         Gateway.is_valid_number := fun _ => false |}
      Gateway.sample_self
      "to@example.org" "subject" "body" [report_pdf] None (Some "text") [].
Proof.
  apply (@send_mail_without_sms sample_externals Gateway.sample_service
           Gateway.sample_phone_numbers _ Gateway.sample_self
           "to@example.org" "subject" "body" [report_pdf] None (Some "text") []).
  left. simpl. lia.
Defined.


Lemma answers_nothing_witness :
  fst (@Gateway.send_registered_sms Gateway.silent_service Gateway.sample_self
         "612345678" "text" [])
  = Raise (MailCertificadoException (PInt 0)
             (PExc (MailCertificadoException (PInt 0) (PStr "Unknown error")))).
Proof.
  apply (@methods_when_service_answers_nothing Gateway.silent_service
           Gateway.sample_self "m-1" "general" "612345678" "text" []);
    reflexivity.
Defined.


Lemma client_failure_witness :
  @Gateway.check_status Gateway.offline_service Gateway.sample_self "m-1" []
  = (Raise (LibraryError "URLError"),
     [Gateway.Opened "https://ws.codicert.tk/soap.php?wsdl"
        "https://ws.codicert.tk/soap.php"]).
Proof.
  apply (@methods_client_failure sample_externals Gateway.offline_service
           Gateway.sample_phone_numbers Gateway.sample_self
           "m-1" "general" "612345678" "text" "to@example.org" "subject" "body"
           [] None None (LibraryError "URLError") []).
  reflexivity.
Defined.
